(** * regexp-composer: the pattern encoder, the condition composer and the
      optionality analyzer of [RegExpBuilder.ts], as Rocq functions.

    Conventions of the embedding.
    - A JavaScript string is a [string]; every [ascii] stands for one code
      point that fits one UTF-16 unit, so the length of a string is its
      number of code points.
    - A JavaScript number is a [number]: an integer, one of the two
      infinities, or NaN.  Fractional values are left out.
    - A [throw] is the [Throw] case of [result]; the error says which
      [throw] statement of the source was reached. *)

From Stdlib Require Import ZArith String Ascii List Bool Lia.
From Stdlib Require Import DecimalString HexadecimalString.
From Stdlib Require HexadecimalPos HexadecimalN.
From stdpp Require Import gmap strings list.

Open Scope string_scope.
Open Scope list_scope.

(* ------------------------------------------------------------------ *)
(** ** Thrown errors *)

Inductive Error : Type :=
| ZeroLengthString            (* isSingleUnicodeCodepoint *)
| NotSingleOrClassToken       (* encodePattern_notAnyOf, first check *)
| StringNotSingleCodepoint    (* encodePattern_notAnyOf, second check *)
| RangeShape                  (* repeated, repeatedNonGreedy *)
| SameAsEmptyName             (* sameAs *)
| SameAsIndexRange            (* sameAs *)
| SameAsFractional            (* sameAs *)
| CodepointBadHex             (* codepoint *)
| CodepointNaN                (* assertValidNumericCodepoint *)
| CodepointOutOfRange         (* assertValidNumericCodepoint *)
| UnresolvedIndex             (* isPatternOptional *)
| UnresolvedName.             (* isPatternOptional *)

Inductive result (A : Type) : Type :=
| OK (a : A)
| Throw (e : Error).

Arguments OK {A} a.
Arguments Throw {A} e.

Definition bind {A B : Type} (c : result A) (k : A -> result B) : result B :=
  match c with
  | OK a => k a
  | Throw e => Throw e
  end.

Declare Scope result_scope.
Delimit Scope result_scope with result.
Notation "'do' x <- c 'in' k" := (bind c (fun x => k))
  (at level 10, x name, c at level 200, k at level 200) : result_scope.
Open Scope result_scope.

Section Traversals.
Context {A B : Type} (f : A -> result B).

(** [array.map(f)] for an [f] that may throw: the first throw ends it. *)
Fixpoint mapM (l : list A) : result (list B) :=
  match l with
  | [] => OK []
  | x :: rest => do y <- f x in do ys <- mapM rest in OK (y :: ys)
  end.
End Traversals.

Section Loops.
Context {A S : Type} (body : S -> A -> result S).

(** [for (const x of l) { ... }] over a loop state, with throws. *)
Fixpoint forOf (l : list A) (s : S) : result S :=
  match l with
  | [] => OK s
  | x :: rest => do s' <- body s x in forOf rest s'
  end.
End Loops.

(* ------------------------------------------------------------------ *)
(** ** Numbers *)

(** The integers, the two infinities and NaN.  Fractional values are not
    represented: what is proved for every [number] is proved for these
    values only. *)
Inductive number : Type :=
| Int (z : Z)
| Infinity
| NegInfinity
| NaN.

(** [x | 0]: ToInt32.  The infinities and NaN become 0, an integer wraps
    around modulo 2^32 into the signed 32-bit range. *)
Definition toInt32 (x : number) : Z :=
  match x with
  | Int z => ((z + 2 ^ 31) mod 2 ^ 32 - 2 ^ 31)%Z
  | _ => 0%Z
  end.

Definition bitor0 (x : number) : number := Int (toInt32 x).

(** [a === b] on numbers: NaN equals nothing. *)
Definition strictEq (a b : number) : bool :=
  match a, b with
  | Int x, Int y => (x =? y)%Z
  | Infinity, Infinity => true
  | NegInfinity, NegInfinity => true
  | _, _ => false
  end.

Definition decimal (z : Z) : string :=
  DecimalString.NilZero.string_of_int (Z.to_int z).

(** A number inside a template literal.  Integers print as plain decimals
    (which JavaScript does below 10^21). *)
Definition numberToString (x : number) : string :=
  match x with
  | Int z => decimal z
  | Infinity => "Infinity"
  | NegInfinity => "-Infinity"
  | NaN => "NaN"
  end.

(** [n.toString(16)] of a non-negative integer. *)
Definition toString16 (z : Z) : string :=
  HexadecimalString.NilZero.string_of_uint (N.to_hex_uint (Z.to_N z)).

(* ------------------------------------------------------------------ *)
(** ** Strings *)

Definition join (sep : string) (parts : list string) : string :=
  String.concat sep parts.

Definition nonEmpty (value : string) : bool := (0 <? String.length value)%nat.

Definition code (c : ascii) : nat := nat_of_ascii c.

Definition lowerChar (c : ascii) : ascii :=
  let n := code c in
  if ((65 <=? n) && (n <=? 90))%nat then ascii_of_nat (n + 32)
  else if ((192 <=? n) && (n <=? 222) && negb (n =? 215))%nat then ascii_of_nat (n + 32)
  else c.

Fixpoint toLowerCase (s : string) : string :=
  match s with
  | EmptyString => EmptyString
  | String c rest => String (lowerChar c) (toLowerCase rest)
  end.

Definition hexDigit (c : ascii) : option Z :=
  let n := code c in
  if ((48 <=? n) && (n <=? 57))%nat then Some (Z.of_nat (n - 48))
  else if ((97 <=? n) && (n <=? 102))%nat then Some (Z.of_nat (n - 87))
  else if ((65 <=? n) && (n <=? 70))%nat then Some (Z.of_nat (n - 55))
  else None.

Definition isHexDigit (c : ascii) : bool :=
  match hexDigit c with Some _ => true | None => false end.

Definition isWhiteSpace (c : ascii) : bool :=
  let n := code c in
  (((9 <=? n) && (n <=? 13)) || (n =? 32) || (n =? 160))%nat.

Fixpoint trimStart (s : string) : string :=
  match s with
  | String c rest => if isWhiteSpace c then trimStart rest else s
  | EmptyString => EmptyString
  end.

(** The digits read by [parseInt]: [None] when the string does not start
    with a digit, otherwise the value of the longest prefix of digits. *)
Fixpoint hexPrefix (acc : option Z) (s : string) : option Z :=
  match s with
  | String c rest =>
      match hexDigit c with
      | Some d =>
          hexPrefix (Some (match acc with Some a => 16 * a + d | None => d end)%Z) rest
      | None => acc
      end
  | EmptyString => acc
  end.

(** [Number.parseInt(s, 16)]: leading white space, a sign, a [0x] prefix,
    then the longest run of hexadecimal digits; NaN when that run is empty. *)
Definition parseInt16 (s : string) : number :=
  let s1 := trimStart s in
  let '(sign, s2) :=
    match s1 with
    | String "-" rest => ((-1)%Z, rest)
    | String "+" rest => (1%Z, rest)
    | _ => (1%Z, s1)
    end in
  let s3 :=
    match s2 with
    | String "0" (String x rest) =>
        if (Ascii.eqb x "x" || Ascii.eqb x "X")%bool then rest else s2
    | _ => s2
    end in
  match hexPrefix None s3 with
  | Some v => Int (sign * v)
  | None => NaN
  end.

(** [/^[0-9a-fA-F]{1, 6}$/.test(s)].  The blank after the comma keeps
    [{1, 6}] from being a quantifier: without the [u] flag the braces are
    literal characters, so the expression matches one hexadecimal digit
    followed by the six characters [{1, 6}] and nothing else. *)
Definition hexRegExpTest (s : string) : bool :=
  match s with
  | String c rest => isHexDigit c && String.eqb rest "{1, 6}"
  | EmptyString => false
  end.

Definition isMetaChar (c : ascii) : bool :=
  existsb (Ascii.eqb c)
    ["."; "*"; "+"; "?"; "^"; "$"; "{"; "}"; "("; ")"; "|"; "["; "]"; "\"]%char.

(** [str.replaceAll(/[.*+?^${}()|[\]\\]/g, '\\$&')] *)
Fixpoint escapeStringForRegExp (str : string) : string :=
  match str with
  | EmptyString => EmptyString
  | String c rest =>
      if isMetaChar c then String "\" (String c (escapeStringForRegExp rest))
      else String c (escapeStringForRegExp rest)
  end.

(* ------------------------------------------------------------------ *)
(** ** The pattern tree *)

(** [Pattern = SinglePattern | Pattern[]]: a string, an array, or one of
    the tagged objects. *)
#[warnings="-register-all"]
Inductive Pattern : Type :=
| Str (s : string)
| Arr (elements : list Pattern)
| SpecialToken (name rawRegExp : string)
| Possibly (content : Pattern)
| ZeroOrMore (content : Pattern) (greedy : bool)
| OneOrMore (content : Pattern) (greedy : bool)
| Repeated (content : Pattern) (minCount maxCount : number) (greedy : bool)
| PrecededBy (content : Pattern)
| NotPrecededBy (content : Pattern)
| FollowedBy (content : Pattern)
| NotFollowedBy (content : Pattern)
| AnyOf (members : list Pattern)
| NotAnyOf (members : list Pattern)
| Capture (name : option string) (content : Pattern)
| SameAs (captureGroupNameOrIndex : string + number).

(* ------------------------------------------------------------------ *)
(** ** Utility functions *)

Definition isString (data : Pattern) : bool :=
  match data with Str _ => true | _ => false end.

Definition isArray (data : Pattern) : bool :=
  match data with Arr _ => true | _ => false end.

Definition isClassToken (pattern : Pattern) : bool :=
  match pattern with SpecialToken _ _ => true | _ => false end.

(** [for (const char of str) { return char.length === str.length }],
    and the throw behind the loop for the empty string. *)
Definition isSingleUnicodeCodepoint (str : string) : result bool :=
  match str with
  | String char _ => OK (String.length (String char "") =? String.length str)%nat
  | EmptyString => Throw ZeroLengthString
  end.

Definition isSingleCharPattern (pattern : Pattern) : result bool :=
  match pattern with
  | Str s =>
      do single <- isSingleUnicodeCodepoint s in
      OK (single || isClassToken pattern)
  | _ => OK (isClassToken pattern)
  end.

Definition isStringOrClassToken (pattern : Pattern) : bool :=
  isString pattern || isClassToken pattern.

(** A value used as a condition: [undefined] and the empty string are the
    falsy ones among those that occur. *)
Definition truthyName (name : option string) : bool :=
  match name with
  | Some n => nonEmpty n
  | None => false
  end.

Definition truthyPattern (slot : option Pattern) : bool :=
  match slot with
  | Some (Str s) => nonEmpty s
  | Some _ => true
  | None => false
  end.

(* ------------------------------------------------------------------ *)
(** ** Encoder functions *)

Definition greedySuffix (greedy : bool) : string := if greedy then "" else "?".

(** The disjunction encoder, over any type of members that can be
    classified and encoded. *)
Section AnyOfEncoder.
Context {M : Type}.
Variable isSingle : M -> result bool.
Variable encode : M -> bool -> result string.

(** Body of the grouping loop. *)
Definition groupMember (patternGroups : list (list M)) (member : M)
  : result (list (list M)) :=
  let lastGroup := List.last patternGroups [] in
  do sameGroup <-
    match lastGroup with
    | [] => OK true
    | first :: _ =>
        do a <- isSingle member in
        do b <- isSingle first in
        OK (Bool.eqb a b)
    end in
  if sameGroup
  then OK (removelast patternGroups ++ [lastGroup ++ [member]])
  else OK (patternGroups ++ [[member]]).

Definition escapeDash (s : string) : string :=
  if String.eqb s "-" then "\-" else s.

(** Body of the loop over the groups. *)
Definition encodeGroup (disjunctionMemberStrings : list string)
  (patternGroup : list M) : result (list string) :=
  match patternGroup with
  | [] => OK disjunctionMemberStrings
  | first :: _ =>
      do single <- isSingle first in
      if single then
        do encoded <- mapM (fun member => encode member false) patternGroup in
        let encodedPatternsGroup := List.map escapeDash (List.filter nonEmpty encoded) in
        if (0 <? length encodedPatternsGroup)%nat
        then OK (disjunctionMemberStrings
                   ++ ["[" +:+ join "" encodedPatternsGroup +:+ "]"])
        else OK disjunctionMemberStrings
      else
        do encoded <- mapM (fun member => encode member true) patternGroup in
        OK (disjunctionMemberStrings ++ List.filter nonEmpty encoded)
  end.

Definition encodePattern_anyOf (members : list M) : result string :=
  if (length members =? 0)%nat then OK ""
  else
    do patternGroups <- forOf groupMember members [[]] in
    do disjunctionMemberStrings <- forOf encodeGroup patternGroups [] in
    if (length disjunctionMemberStrings =? 0)%nat then OK ""
    else OK ("(?:" +:+ join "|" disjunctionMemberStrings +:+ ")").
End AnyOfEncoder.

(** The encoders of the node kinds, with the recursive call to
    [encodePattern] as a parameter. *)
Section NodeEncoders.
Variable encodePattern : Pattern -> bool -> result string.

Definition notAnyOfMember (encodedElements : list string) (member : Pattern)
  : result (list string) :=
  if negb (isStringOrClassToken member) then Throw NotSingleOrClassToken
  else
    do multi <-
      match member with
      | Str s => do single <- isSingleUnicodeCodepoint s in OK (negb single)
      | _ => OK false
      end in
    if multi then Throw StringNotSingleCodepoint
    else
      do encoded <- encodePattern member false in
      OK (encodedElements ++ [encoded]).

Definition encodePattern_notAnyOf (members : list Pattern) : result string :=
  if (length members =? 0)%nat then OK ""
  else
    do encodedElements <- forOf notAnyOfMember members [] in
    OK ("[^" +:+ join "" encodedElements +:+ "]").

Definition encodePattern_possibly (content : Pattern) : result string :=
  do contentString <- encodePattern content true in
  if String.eqb contentString "" then OK ""
  else if isStringOrClassToken content then OK (contentString +:+ "?")
  else OK ("(?:" +:+ contentString +:+ ")?").

Definition encodePattern_zeroOrMore (content : Pattern) (greedy : bool)
  : result string :=
  do contentString <- encodePattern content true in
  if String.eqb contentString "" then OK ""
  else if isStringOrClassToken content
  then OK (contentString +:+ "*" +:+ greedySuffix greedy)
  else OK ("(?:" +:+ contentString +:+ ")*" +:+ greedySuffix greedy).

Definition encodePattern_oneOrMore (content : Pattern) (greedy : bool)
  : result string :=
  do contentString <- encodePattern content true in
  if String.eqb contentString "" then OK ""
  else if isStringOrClassToken content
  then OK (contentString +:+ "+" +:+ greedySuffix greedy)
  else OK ("(?:" +:+ contentString +:+ ")+" +:+ greedySuffix greedy).

Definition countString (minCount maxCount : number) : string :=
  if strictEq minCount maxCount then "{" +:+ numberToString minCount +:+ "}"
  else if strictEq maxCount Infinity then "{" +:+ numberToString minCount +:+ ",}"
  else "{" +:+ numberToString minCount +:+ "," +:+ numberToString maxCount +:+ "}".

Definition encodePattern_repeated (content : Pattern)
  (minCount maxCount : number) (greedy : bool) : result string :=
  do contentString <- encodePattern content true in
  if String.eqb contentString "" then OK ""
  else OK ("(?:" +:+ contentString +:+ ")" +:+ countString minCount maxCount
             +:+ greedySuffix greedy).

Definition encodePattern_precededBy (content : Pattern) : result string :=
  do contentString <- encodePattern content true in
  if String.eqb contentString "" then OK ""
  else OK ("(?<=" +:+ contentString +:+ ")").

Definition encodePattern_notPrecededBy (content : Pattern) : result string :=
  do contentString <- encodePattern content true in
  if String.eqb contentString "" then OK ""
  else OK ("(?<!" +:+ contentString +:+ ")").

Definition encodePattern_followedBy (content : Pattern) : result string :=
  do contentString <- encodePattern content true in
  if String.eqb contentString "" then OK ""
  else OK ("(?=" +:+ contentString +:+ ")").

Definition encodePattern_notFollowedBy (content : Pattern) : result string :=
  do contentString <- encodePattern content true in
  if String.eqb contentString "" then OK ""
  else OK ("(?!" +:+ contentString +:+ ")").

Definition encodePattern_capture (name : option string) (content : Pattern)
  : result string :=
  do contentString <- encodePattern content true in
  match name with
  | Some n =>
      if truthyName name then OK ("(?<" +:+ n +:+ ">" +:+ contentString +:+ ")")
      else OK ("(" +:+ contentString +:+ ")")
  | None => OK ("(" +:+ contentString +:+ ")")
  end.
End NodeEncoders.

Definition encodePattern_sameAs (captureGroupNameOrIndex : string + number)
  : result string :=
  match captureGroupNameOrIndex with
  | inl name => OK ("\k<" +:+ name +:+ ">")
  | inr index => OK ("(?:\" +:+ numberToString index +:+ ")")
  end.

Definition encodeSpecialToken (name rawRegExp : string) (wrapRangeTokens : bool)
  : string :=
  if wrapRangeTokens
     && (String.eqb name "charRange" || String.eqb name "codepointRange")
  then "[" +:+ rawRegExp +:+ "]"
  else rawRegExp.

(** [encodePattern(pattern, wrapRangeTokens = true)].  In the [AnyOf] case
    every member travels with its own encoder, so that the recursive calls
    are on members of the node; [encodePattern_AnyOf] below shows that this
    is [encodePattern_anyOf] run on the members themselves. *)
Fixpoint encodePattern (pattern : Pattern) (wrapRangeTokens : bool)
  : result string :=
  match pattern with
  | Str s => OK (escapeStringForRegExp s)
  | Arr elements =>
      do parts <- mapM (fun element => encodePattern element true) elements in
      OK (join "" parts)
  | SpecialToken name rawRegExp =>
      OK (encodeSpecialToken name rawRegExp wrapRangeTokens)
  | Possibly content => encodePattern_possibly encodePattern content
  | ZeroOrMore content greedy =>
      encodePattern_zeroOrMore encodePattern content greedy
  | OneOrMore content greedy =>
      encodePattern_oneOrMore encodePattern content greedy
  | AnyOf members =>
      encodePattern_anyOf
        (fun m => isSingleCharPattern (fst m)) (fun m => snd m)
        (List.map (fun member => (member, encodePattern member)) members)
  | NotAnyOf members => encodePattern_notAnyOf encodePattern members
  | Capture name content => encodePattern_capture encodePattern name content
  | Repeated content minCount maxCount greedy =>
      encodePattern_repeated encodePattern content minCount maxCount greedy
  | FollowedBy content => encodePattern_followedBy encodePattern content
  | NotFollowedBy content => encodePattern_notFollowedBy encodePattern content
  | PrecededBy content => encodePattern_precededBy encodePattern content
  | NotPrecededBy content => encodePattern_notPrecededBy encodePattern content
  | SameAs captureGroupNameOrIndex =>
      encodePattern_sameAs captureGroupNameOrIndex
  end.

(* ------------------------------------------------------------------ *)
(** ** AST building functions *)

Definition possibly (pattern : Pattern) : Pattern := Possibly pattern.
Definition zeroOrMore (pattern : Pattern) : Pattern := ZeroOrMore pattern true.
Definition zeroOrMoreNonGreedy (pattern : Pattern) : Pattern := ZeroOrMore pattern false.
Definition oneOrMore (pattern : Pattern) : Pattern := OneOrMore pattern true.
Definition oneOrMoreNonGreedy (pattern : Pattern) : Pattern := OneOrMore pattern false.

(** [range.length as number === 0 || range.length > 2] *)
Definition badRangeLength (range : list number) : bool :=
  ((length range =? 0) || (2 <? length range))%nat.

(** [range[1] ?? Infinity] *)
Definition rangeMax (range : list number) : number :=
  match nth_error range 1 with
  | Some maxCount => maxCount
  | None => Infinity
  end.

(** [range[0]] of a range that passed the length test. *)
Definition rangeMin (range : list number) : number :=
  match range with
  | minCount :: _ => minCount
  | [] => NaN
  end.

(** [repeated(count, pattern)] and [repeated(range, pattern)]: the first
    argument is a number or an array of numbers. *)
Definition repeated (countOrRange : number + list number) (pattern : Pattern)
  : result Pattern :=
  do counts <-
    match countOrRange with
    | inl count => OK (count, count)
    | inr range =>
        if badRangeLength range then Throw RangeShape
        else OK (rangeMin range, rangeMax range)
    end in
  let minCount := bitor0 (fst counts) in
  let maxCount := bitor0 (snd counts) in
  OK (Repeated pattern minCount maxCount true).

Definition repeatedNonGreedy (pattern : Pattern) (range : list number)
  : result Pattern :=
  if badRangeLength range then Throw RangeShape
  else
    let minCount := bitor0 (rangeMin range) in
    let maxCount := bitor0 (rangeMax range) in
    OK (Repeated pattern minCount maxCount false).

Definition precededBy (pattern : Pattern) : Pattern := PrecededBy pattern.
Definition notPrecededBy (pattern : Pattern) : Pattern := NotPrecededBy pattern.
Definition followedBy (pattern : Pattern) : Pattern := FollowedBy pattern.
Definition notFollowedBy (pattern : Pattern) : Pattern := NotFollowedBy pattern.

Definition anyOf (members : list Pattern) : Pattern := AnyOf members.
Definition notAnyOf (members : list Pattern) : Pattern := NotAnyOf members.

Definition capture (pattern : Pattern) : Pattern := Capture None pattern.
Definition captureAs (name : string) (pattern : Pattern) : Pattern :=
  Capture (Some name) pattern.

(** [a < b] and [a > b] on numbers; a comparison with NaN is false. *)
Definition numLt (a b : number) : bool :=
  match a, b with
  | Int x, Int y => (x <? y)%Z
  | NegInfinity, Int _ | NegInfinity, Infinity | Int _, Infinity => true
  | _, _ => false
  end.

Definition numGt (a b : number) : bool := numLt b a.

Definition isNaN (x : number) : bool :=
  match x with NaN => true | _ => false end.

Definition sameAs (captureGroupNameOrIndex : string + number) : result Pattern :=
  match captureGroupNameOrIndex with
  | inl name =>
      if (String.length name =? 0)%nat then Throw SameAsEmptyName
      else OK (SameAs captureGroupNameOrIndex)
  | inr index =>
      if numLt index (Int 1) || numGt index (Int 99) then Throw SameAsIndexRange
      else if negb (strictEq index (bitor0 index)) then Throw SameAsFractional
      else OK (SameAs captureGroupNameOrIndex)
  end.

Definition assertValidNumericCodepoint (numericCodepoint : number) : result unit :=
  if isNaN numericCodepoint then Throw CodepointNaN
  else if numLt numericCodepoint (Int 0) || numGt numericCodepoint (Int 1114111)
  then Throw CodepointOutOfRange
  else OK tt.

(** [x.toString(16)] *)
Definition numberToString16 (x : number) : string :=
  match x with
  | Int z => if (z <? 0)%Z then "-" +:+ toString16 (- z) else toString16 z
  | Infinity => "Infinity"
  | NegInfinity => "-Infinity"
  | NaN => "NaN"
  end.

(** [codepoint(hex)] and [codepoint(index)]: the argument is a string or a
    number. *)
Definition codepoint (unicodeCodepoint : string + number) : result Pattern :=
  do hex <-
    match unicodeCodepoint with
    | inr index =>
        do _ <- assertValidNumericCodepoint index in
        OK (numberToString16 index)
    | inl hexString =>
        let lowered := toLowerCase hexString in
        if hexRegExpTest lowered then Throw CodepointBadHex
        else
          do _ <- assertValidNumericCodepoint (parseInt16 lowered) in
          OK lowered
    end in
  OK (SpecialToken "codepoint" ("\u{" +:+ hex +:+ "}")).

(* ------------------------------------------------------------------ *)
(** ** Match patterns *)

Record MatchesConditions : Type := {
  except : option Pattern;
  ifFollowedBy : option Pattern;
  ifNotFollowedBy : option Pattern;
  ifPrecededBy : option Pattern;
  ifNotPrecededBy : option Pattern;
  ifExtendsTo : option Pattern;
  ifExtendsBackTo : option Pattern;
  ifNotExtendsBackTo : option Pattern
}.

(** [if (slot) { bucket.push(wrap(slot)) }] *)
Definition pushIf (slot : option Pattern) (wrap : Pattern -> Pattern)
  (bucket : list Pattern) : list Pattern :=
  match slot with
  | Some p => if truthyPattern slot then bucket ++ [wrap p] else bucket
  | None => bucket
  end.

(** Body of the loop over the condition maps; the state is
    [(beforePattern, afterPattern)]. *)
Definition addConditions (buckets : list Pattern * list Pattern)
  (conditions : MatchesConditions) : list Pattern * list Pattern :=
  let beforePattern := fst buckets in
  let afterPattern := snd buckets in
  let beforePattern := pushIf (except conditions) notFollowedBy beforePattern in
  let afterPattern := pushIf (ifFollowedBy conditions) followedBy afterPattern in
  let afterPattern := pushIf (ifNotFollowedBy conditions) notFollowedBy afterPattern in
  let beforePattern := pushIf (ifPrecededBy conditions) precededBy beforePattern in
  let beforePattern := pushIf (ifNotPrecededBy conditions) notPrecededBy beforePattern in
  let beforePattern := pushIf (ifExtendsTo conditions) followedBy beforePattern in
  let afterPattern := pushIf (ifExtendsBackTo conditions) precededBy afterPattern in
  let afterPattern := pushIf (ifNotExtendsBackTo conditions) notPrecededBy afterPattern in
  (beforePattern, afterPattern).

(** [matches(pattern, conditions)] and [matches(pattern, conditionsArray)] *)
Definition matches (pattern : Pattern)
  (conditionsOrConditionsArray : MatchesConditions + list MatchesConditions)
  : Pattern :=
  let conditionsArray :=
    match conditionsOrConditionsArray with
    | inr conditionsArray => conditionsArray
    | inl conditions => [conditions]
    end in
  let buckets := fold_left addConditions conditionsArray ([], []) in
  Arr (fst buckets ++ [pattern] ++ snd buckets).

(* ------------------------------------------------------------------ *)
(** ** Detect if a pattern is optional *)

(** The two tables that [isPatternOptional] creates and its inner function
    updates. *)
Record Lookups : Type := {
  captureGroupLookup : list bool;
  namedCaptureGroupLookup : gmap string bool
}.

Definition noLookups : Lookups :=
  {| captureGroupLookup := []; namedCaptureGroupLookup := ∅ |}.

(** [array[index]]: an element for an integer index inside the array,
    [undefined] otherwise. *)
Definition arrayGet {A : Type} (array : list A) (index : number) : option A :=
  match index with
  | Int z => if (0 <=? z)%Z then nth_error array (Z.to_nat z) else None
  | _ => None
  end.

Section EarlyReturn.
Context {A St : Type} (isOptional : A -> St -> result (bool * St)).

(** [for (const x of l) { if (!isOptional(x)) { return false } }
    return true] *)
Fixpoint allOptional (l : list A) (st : St) : result (bool * St) :=
  match l with
  | [] => OK (true, st)
  | x :: rest =>
      do r <- isOptional x st in
      if fst r then allOptional rest (snd r) else OK (false, snd r)
  end.
End EarlyReturn.

Definition recordCapture (name : option string) (isGroupOptional : bool)
  (st : Lookups) : Lookups :=
  {| captureGroupLookup := captureGroupLookup st ++ [isGroupOptional];
     namedCaptureGroupLookup :=
       match name with
       | Some n =>
           if truthyName name
           then <[n := isGroupOptional]> (namedCaptureGroupLookup st)
           else namedCaptureGroupLookup st
       | None => namedCaptureGroupLookup st
       end |}.

Definition resolve (nameOrIndex : string + number) (st : Lookups) : result bool :=
  match nameOrIndex with
  | inr index =>
      match arrayGet (captureGroupLookup st) index with
      | Some lookupResult => OK lookupResult
      | None => Throw UnresolvedIndex
      end
  | inl name =>
      match namedCaptureGroupLookup st !! name with
      | Some lookupResult => OK lookupResult
      | None => Throw UnresolvedName
      end
  end.

(** The inner function [isOptional]; the tables it closes over are passed
    in and handed back. *)
Fixpoint isOptional (pattern : Pattern) (st : Lookups) : result (bool * Lookups) :=
  match pattern with
  | Str _ => OK (false, st)
  | Arr elements => allOptional isOptional elements st
  | SpecialToken _ _ | NotAnyOf _ => OK (false, st)
  | Possibly _ | ZeroOrMore _ _ => OK (true, st)
  | OneOrMore content _
  | Repeated content _ _ _
  | PrecededBy content
  | NotPrecededBy content
  | FollowedBy content
  | NotFollowedBy content => isOptional content st
  | Capture name content =>
      do r <- isOptional content st in
      let isGroupOptional := fst r in
      OK (isGroupOptional, recordCapture name isGroupOptional (snd r))
  | AnyOf members => allOptional isOptional members st
  | SameAs nameOrIndex =>
      do lookupResult <- resolve nameOrIndex st in
      OK (lookupResult, st)
  end.

Definition isPatternOptional (pattern : Pattern) : result bool :=
  do r <- isOptional pattern noLookups in
  OK (fst r).

(* ------------------------------------------------------------------ *)
(** ** Property tokens and character ranges *)

(** [unicodeProperty(property)] and [unicodeProperty(property, value)] *)
Definition unicodeProperty (property : string) (value : option string) : Pattern :=
  let propertyString :=
    match value with
    | Some v => property +:+ "=" +:+ v
    | None => property
    end in
  SpecialToken "unicodeProperty" ("\p{" +:+ propertyString +:+ "}").

Definition notUnicodeProperty (property : string) (value : option string) : Pattern :=
  let propertyString :=
    match value with
    | Some v => property +:+ "=" +:+ v
    | None => property
    end in
  SpecialToken "notUnicodeProperty" ("\P{" +:+ propertyString +:+ "}").

(** [str.codePointAt(0)]: [undefined] on the empty string. *)
Definition codePointAt0 (str : string) : option nat :=
  match str with
  | String c _ => Some (code c)
  | EmptyString => None
  end.

(** [a > b] on two results of [codePointAt]: false as soon as one of them
    is [undefined]. *)
Definition codePointGt (a b : option nat) : bool :=
  match a, b with
  | Some x, Some y => (y <? x)%nat
  | _, _ => false
  end.

(** [charRange(startChar, endChar)]; [None] is its throw. *)
Definition charRange (startChar endChar : string) : option Pattern :=
  if codePointGt (codePointAt0 startChar) (codePointAt0 endChar) then None
  else
    let startChar := if String.eqb startChar "-" then "\-" else startChar in
    let endChar := if String.eqb endChar "-" then "\-" else endChar in
    Some (SpecialToken "charRange" (startChar +:+ "-" +:+ endChar)).

(* ------------------------------------------------------------------ *)
(** ** Build options *)

Record BuildOptions : Type := {
  global : bool;
  hasIndices : bool;
  ignoreCase : bool;
  sticky : bool
}.

Definition defaultBuildOptions : BuildOptions :=
  {| global := false; hasIndices := true; ignoreCase := false; sticky := false |}.

(** [if (flag) { flagsString += letter }] *)
Definition addFlag (flag : bool) (letter flagsString : string) : string :=
  if flag then flagsString +:+ letter else flagsString.

Definition getRegExpFlagsForOptions (options : BuildOptions) : string :=
  let flagsString := "" in
  let multiline := false in
  let dotAll := true in
  let unicode := true in
  let unicodeSets := false in
  let flagsString := addFlag (hasIndices options) "d" flagsString in
  let flagsString := addFlag (global options) "g" flagsString in
  let flagsString := addFlag (ignoreCase options) "i" flagsString in
  let flagsString := addFlag multiline "m" flagsString in
  let flagsString := addFlag dotAll "s" flagsString in
  let flagsString := addFlag unicode "u" flagsString in
  let flagsString := addFlag unicodeSets "v" flagsString in
  let flagsString := addFlag (sticky options) "y" flagsString in
  flagsString.

(* ------------------------------------------------------------------ *)
(** ** Reference definitions

    What the documentation of the library says, written independently of
    the loops above; the theorems compare the two. *)

(** Atomic pattern: a single literal code point or a class token.
    Anything else is composite. *)
Definition isAtomic (pattern : Pattern) : bool :=
  match pattern with
  | Str s => (String.length s =? 1)%nat
  | SpecialToken _ _ => true
  | _ => false
  end.

(** Maximal runs of neighbours with the same classification. *)
Fixpoint runs {A : Type} (cls : A -> bool) (l : list A) : list (list A) :=
  match l with
  | [] => []
  | x :: rest =>
      match runs cls rest with
      | (y :: run) :: others =>
          if Bool.eqb (cls x) (cls y) then (x :: y :: run) :: others
          else [x] :: (y :: run) :: others
      | _ => [[x]]
      end
  end.

(** An atomic run: unwrapped encodings, a bare hyphen escaped, empty ones
    dropped, the rest inside one pair of brackets; nothing when nothing is
    left. *)
Definition atomicRunOutput (run : list Pattern) : result (list string) :=
  do fragments <- mapM (fun member => encodePattern member false) run in
  match List.filter nonEmpty (List.map escapeDash fragments) with
  | [] => OK []
  | kept => OK ["[" +:+ join "" kept +:+ "]"]
  end.

(** A composite run: every member is a branch of its own, empty ones
    dropped. *)
Definition compositeRunOutput (run : list Pattern) : result (list string) :=
  do branches <- mapM (fun member => encodePattern member true) run in
  OK (List.filter nonEmpty branches).

Definition runOutput (run : list Pattern) : result (list string) :=
  match run with
  | [] => OK []
  | first :: _ =>
      if isAtomic first then atomicRunOutput run else compositeRunOutput run
  end.

(** The run outputs in order, joined with a bar inside one non-capturing
    group; the empty string when there is no output. *)
Definition anyOfReference (members : list Pattern) : result string :=
  do outputs <- mapM runOutput (runs isAtomic members) in
  match concat outputs with
  | [] => OK ""
  | branches => OK ("(?:" +:+ join "|" branches +:+ ")")
  end.

(** The assertion of one slot of a condition map: present when the slot is
    selected. *)
Definition assertion (slot : option Pattern) (wrap : Pattern -> Pattern)
  : list Pattern :=
  match slot with
  | Some p => if truthyPattern slot then [wrap p] else []
  | None => []
  end.

Definition beforeAssertions (conditions : MatchesConditions) : list Pattern :=
  assertion (except conditions) NotFollowedBy
  ++ assertion (ifPrecededBy conditions) PrecededBy
  ++ assertion (ifNotPrecededBy conditions) NotPrecededBy
  ++ assertion (ifExtendsTo conditions) FollowedBy.

Definition afterAssertions (conditions : MatchesConditions) : list Pattern :=
  assertion (ifFollowedBy conditions) FollowedBy
  ++ assertion (ifNotFollowedBy conditions) NotFollowedBy
  ++ assertion (ifExtendsBackTo conditions) PrecededBy
  ++ assertion (ifNotExtendsBackTo conditions) NotPrecededBy.

(** Undoing the escape of a literal: a backslash is dropped and the
    character behind it is kept. *)
Fixpoint unescape (s : string) : string :=
  match s with
  | String c rest =>
      if Ascii.eqb c "\" then
        match rest with
        | String c' rest' => String c' (unescape rest')
        | EmptyString => String c EmptyString
        end
      else String c (unescape rest)
  | EmptyString => EmptyString
  end.

Definition isEmptyLiteral (pattern : Pattern) : bool :=
  match pattern with
  | Str s => String.eqb s ""
  | _ => false
  end.

(** The patterns on which the encoder does not throw: below a negated
    class only atomic members, below a disjunction no empty literal. *)
Fixpoint encodable (pattern : Pattern) : bool :=
  match pattern with
  | Str _ | SpecialToken _ _ | SameAs _ => true
  | Arr elements => forallb encodable elements
  | Possibly content
  | ZeroOrMore content _
  | OneOrMore content _
  | Repeated content _ _ _
  | PrecededBy content
  | NotPrecededBy content
  | FollowedBy content
  | NotFollowedBy content
  | Capture _ content => encodable content
  | AnyOf members =>
      forallb (fun member => negb (isEmptyLiteral member) && encodable member)
        members
  | NotAnyOf members => forallb isAtomic members
  end.

(** Optionality without the tables: every backreference counts as
    optional. *)
Fixpoint optionalByShape (pattern : Pattern) : bool :=
  match pattern with
  | Str _ | SpecialToken _ _ | NotAnyOf _ => false
  | Possibly _ | ZeroOrMore _ _ | SameAs _ => true
  | Arr elements => forallb optionalByShape elements
  | AnyOf members => forallb optionalByShape members
  | OneOrMore content _
  | Repeated content _ _ _
  | PrecededBy content
  | NotPrecededBy content
  | FollowedBy content
  | NotFollowedBy content
  | Capture _ content => optionalByShape content
  end.

(** No backreference anywhere in the pattern. *)
Fixpoint noSameAs (pattern : Pattern) : bool :=
  match pattern with
  | SameAs _ => false
  | Str _ | SpecialToken _ _ => true
  | Arr elements => forallb noSameAs elements
  | AnyOf members => forallb noSameAs members
  | NotAnyOf members => forallb noSameAs members
  | Possibly content
  | ZeroOrMore content _
  | OneOrMore content _
  | Repeated content _ _ _
  | PrecededBy content
  | NotPrecededBy content
  | FollowedBy content
  | NotFollowedBy content
  | Capture _ content => noSameAs content
  end.

(** Every flag in the two tables is [true]. *)
Definition allTrue (st : Lookups) : Prop :=
  List.Forall (fun flag => flag = true) (captureGroupLookup st)
  /\ forall name flag,
       namedCaptureGroupLookup st !! name = Some flag -> flag = true.

(** A letter occurs in a string of flags. *)
Definition hasFlag (letter : ascii) (flags : string) : bool :=
  existsb (Ascii.eqb letter) (list_ascii_of_string flags).

(* ================================================================== *)
(** * Theorems *)

(** ** The result monad and the loops *)

Lemma bind_ext {A B : Type} (c : result A) (f g : A -> result B) :
  (forall a, f a = g a) -> bind c f = bind c g.
Proof. intros H. destruct c; simpl; auto. Qed.

(* ------------------------------------------------------------------ *)
(** ** The optionality analyzer *)

(** A numeric reference reads the table of capture flags at that very
    position, counted from zero. *)
Lemma isOptional_SameAs_index (n : Z) (st : Lookups) :
  (0 <= n)%Z ->
  isOptional (SameAs (inr (Int n))) st =
  match nth_error (captureGroupLookup st) (Z.to_nat n) with
  | Some flag => OK (flag, st)
  | None => Throw UnresolvedIndex
  end.
Proof.
  intros Hn. simpl. unfold arrayGet.
  destruct (Z.leb_spec 0 n) as [_ | Hlt]; [ | lia ].
  destruct (nth_error _ _); reflexivity.
Qed.

(** A name reference reads the flag recorded for the name. *)
Lemma isOptional_SameAs_name (name : string) (st : Lookups) :
  isOptional (SameAs (inl name)) st =
  match namedCaptureGroupLookup st !! name with
  | Some flag => OK (flag, st)
  | None => Throw UnresolvedName
  end.
Proof. simpl. destruct (_ !! _); reflexivity. Qed.

(** A reference by name to a capture built from [possibly] is optional. *)
Lemma isPatternOptional_sameAs_name_possibly :
  (do reference <- sameAs (inl "x") in
   isPatternOptional (Arr [captureAs "x" (possibly (Str "a")); reference]))
  = OK true.
Proof. reflexivity. Qed.

(** C1. The claim: within one traversal, [sameAs n] yields the flag of the
    n-th capture met so far, counted from one.  The code reads the table at
    position n counted from zero: with one capture recorded, built from
    [possibly], the reference [sameAs 1] is not resolved, where the claim
    gives [true]; with two captures recorded it is resolved, to the second
    one. *)
Theorem isPatternOptional_sameAs_index_off_by_one :
  (do reference <- sameAs (inr (Int 1)) in
   isPatternOptional (Arr [capture (possibly (Str "a")); reference]))
  = Throw UnresolvedIndex
  /\
  (do reference <- sameAs (inr (Int 1)) in
   isOptional (Arr [capture (possibly (Str "a"));
                    capture (zeroOrMore (Str "b")); reference]) noLookups)
  = OK (true, {| captureGroupLookup := [true; true];
                 namedCaptureGroupLookup := ∅ |}).
Proof. split; reflexivity. Qed.

(** C10. [isPatternOptional] is [true] on the empty array and on an
    [anyOf] without members. *)
Theorem isPatternOptional_empty :
  isPatternOptional (Arr []) = OK true
  /\ isPatternOptional (anyOf []) = OK true.
Proof. split; reflexivity. Qed.

(* ------------------------------------------------------------------ *)
(** ** Captures, wrappers and backreferences in the encoder *)

(** C9. A capture is always encoded as a group: whatever string [s] its
    content encodes to, the result is [(s)] without a name and
    [(?<name>s)] with one (a name is a non-empty string, as the code
    tests it).  There is no test for an empty content: when [s] is the
    empty string the capture is still [()] or [(?<name>)], whereas every
    quantifier and every lookaround wrapper around such a content encodes
    to the empty string. *)
Theorem encodePattern_capture_always_groups (content : Pattern) (s : string)
  (w : bool) :
  encodePattern content true = OK s ->
  encodePattern (capture content) w = OK ("(" +:+ s +:+ ")")
  /\ (forall name, name <> "" ->
        encodePattern (captureAs name content) w
        = OK ("(?<" +:+ name +:+ ">" +:+ s +:+ ")"))
  /\ (s = "" ->
      encodePattern (capture content) w = OK "()"
      /\ (forall name, name <> "" ->
            encodePattern (captureAs name content) w
            = OK ("(?<" +:+ name +:+ ">)"))
      /\ encodePattern (Possibly content) w = OK ""
      /\ (forall greedy, encodePattern (ZeroOrMore content greedy) w = OK "")
      /\ (forall greedy, encodePattern (OneOrMore content greedy) w = OK "")
      /\ (forall minCount maxCount greedy,
            encodePattern (Repeated content minCount maxCount greedy) w = OK "")
      /\ encodePattern (PrecededBy content) w = OK ""
      /\ encodePattern (NotPrecededBy content) w = OK ""
      /\ encodePattern (FollowedBy content) w = OK ""
      /\ encodePattern (NotFollowedBy content) w = OK "").
Proof.
  intros Hcontent.
  assert (Hunnamed :
    encodePattern (capture content) w = OK ("(" +:+ s +:+ ")")).
  { cbn [encodePattern capture]. unfold encodePattern_capture.
    now rewrite Hcontent. }
  assert (Hnamed : forall name, name <> "" ->
    encodePattern (captureAs name content) w
    = OK ("(?<" +:+ name +:+ ">" +:+ s +:+ ")")).
  { intros name Hname. cbn [encodePattern captureAs].
    unfold encodePattern_capture. rewrite Hcontent. cbn [bind truthyName].
    destruct name as [ | c rest]; [ congruence | reflexivity ]. }
  split; [ exact Hunnamed | split; [ exact Hnamed | ] ].
  intros ->.
  split; [ exact Hunnamed | split; [ exact Hnamed | ] ].
  repeat split; intros; cbn [encodePattern];
    unfold encodePattern_possibly, encodePattern_zeroOrMore,
      encodePattern_oneOrMore, encodePattern_repeated,
      encodePattern_precededBy, encodePattern_notPrecededBy,
      encodePattern_followedBy, encodePattern_notFollowedBy;
    rewrite Hcontent; reflexivity.
Qed.

Lemma encodePattern_capture_always_groups_witness :
  (encodePattern (Arr [Str "a"; Str "b"]) true = OK "ab"
   /\ "year" <> ""
   /\ encodePattern (capture (Arr [Str "a"; Str "b"])) true = OK "(ab)"
   /\ encodePattern (captureAs "year" (Arr [Str "a"; Str "b"])) true
      = OK "(?<year>ab)")
  /\ (encodePattern (Arr []) true = OK ""
      /\ encodePattern (capture (Arr [])) true = OK "()"
      /\ encodePattern (captureAs "year" (Arr [])) true = OK "(?<year>)"
      /\ encodePattern (Possibly (Arr [])) true = OK "").
Proof.
  assert (Hname : "year" <> "") by discriminate.
  split.
  - destruct (encodePattern_capture_always_groups
                (Arr [Str "a"; Str "b"]) "ab" true eq_refl)
      as (Hunnamed & Hnamed & _).
    split; [ reflexivity | split; [ exact Hname | ] ].
    split; [ exact Hunnamed | exact (Hnamed "year" Hname) ].
  - destruct (encodePattern_capture_always_groups (Arr []) "" true eq_refl)
      as (_ & _ & Hempty).
    destruct (Hempty eq_refl) as (Hunnamed & Hnamed & Hpossibly & _).
    split; [ reflexivity | split; [ exact Hunnamed | ] ].
    split; [ exact (Hnamed "year" Hname) | exact Hpossibly ].
Defined.

(** A capture named by the empty string is encoded like an unnamed one. *)
Lemma encodePattern_capture_empty_name (content : Pattern) (w : bool) :
  encodePattern (captureAs "" content) w = encodePattern (capture content) w.
Proof. reflexivity. Qed.

(** The claim of C7, that a numeric reference encodes to exactly the
    numbered backreference, fails: the code puts it in a group. *)
Lemma encodePattern_sameAs_index_not_bare :
  (do reference <- sameAs (inr (Int 1)) in encodePattern reference true)
  <> OK "\1".
Proof. discriminate. Qed.

(** C7, amended.  A reference by name encodes to exactly [\k<name>]; the
    reference by an integer N from 1 to 99 is accepted by [sameAs] and
    encodes to the numbered backreference inside a non-capturing group,
    [(?:\N)]. *)
Theorem encodePattern_SameAs (w : bool) :
  (forall name, encodePattern (SameAs (inl name)) w = OK ("\k<" +:+ name +:+ ">"))
  /\ (forall N, (1 <= N <= 99)%Z ->
        sameAs (inr (Int N)) = OK (SameAs (inr (Int N)))
        /\ encodePattern (SameAs (inr (Int N))) w
           = OK ("(?:\" +:+ decimal N +:+ ")")).
Proof.
  split; [ reflexivity | ].
  intros N HN. split; [ | reflexivity ].
  unfold sameAs, numGt, numLt, bitor0, strictEq, toInt32.
  destruct (Z.ltb_spec N 1); [ lia | ].
  destruct (Z.ltb_spec 99 N); [ lia | ].
  cbn [orb negb].
  replace ((N + 2 ^ 31) mod 2 ^ 32 - 2 ^ 31)%Z with N.
  - rewrite Z.eqb_refl. reflexivity.
  - rewrite Z.mod_small; lia.
Qed.

Lemma encodePattern_SameAs_witness :
  (1 <= 7 <= 99)%Z
  /\ sameAs (inr (Int 7)) = OK (SameAs (inr (Int 7)))
  /\ encodePattern (SameAs (inr (Int 7))) true = OK "(?:\7)".
Proof.
  split; [ lia | ].
  apply (proj2 (encodePattern_SameAs true) 7%Z). lia.
Defined.

(* ------------------------------------------------------------------ *)
(** ** The condition composer *)

Lemma pushIf_assertion (slot : option Pattern) (wrap : Pattern -> Pattern)
  (bucket : list Pattern) :
  pushIf slot wrap bucket = bucket ++ assertion slot wrap.
Proof.
  unfold pushIf, assertion.
  destruct slot as [p | ]; [ destruct (truthyPattern (Some p)) | ];
    now rewrite ?app_nil_r.
Qed.

Lemma addConditions_buckets (buckets : list Pattern * list Pattern)
  (conditions : MatchesConditions) :
  addConditions buckets conditions =
  (fst buckets ++ beforeAssertions conditions,
   snd buckets ++ afterAssertions conditions).
Proof.
  unfold addConditions, beforeAssertions, afterAssertions,
    notFollowedBy, followedBy, precededBy, notPrecededBy.
  rewrite !pushIf_assertion, <- !app_assoc. reflexivity.
Qed.

Lemma fold_addConditions (conditionsArray : list MatchesConditions) :
  forall buckets,
  fold_left addConditions conditionsArray buckets =
  (fst buckets ++ flat_map beforeAssertions conditionsArray,
   snd buckets ++ flat_map afterAssertions conditionsArray).
Proof.
  induction conditionsArray as [ | conditions rest IH]; intros [before after].
  - cbn. now rewrite !app_nil_r.
  - cbn [fold_left flat_map]. rewrite IH, addConditions_buckets.
    cbn [fst snd]. now rewrite <- !app_assoc.
Qed.

(** C8. [matches] returns the array of the assertions placed before, the
    primary pattern, and the assertions placed after.  Every condition map
    gives its selected slots in the fixed order [except], [ifPrecededBy],
    [ifNotPrecededBy], [ifExtendsTo] before and [ifFollowedBy],
    [ifNotFollowedBy], [ifExtendsBackTo], [ifNotExtendsBackTo] after, each
    wrapped in its lookaround; several maps add to the two buckets in the
    order of the array. *)
Theorem matches_sequence (pattern : Pattern) :
  (forall conditionsArray,
     matches pattern (inr conditionsArray) =
     Arr (flat_map beforeAssertions conditionsArray
          ++ [pattern]
          ++ flat_map afterAssertions conditionsArray))
  /\ (forall conditions,
        matches pattern (inl conditions) =
        Arr (beforeAssertions conditions ++ [pattern]
             ++ afterAssertions conditions)).
Proof.
  split; intros; unfold matches; rewrite fold_addConditions; cbn.
  - reflexivity.
  - now rewrite !app_nil_r.
Qed.

(* ------------------------------------------------------------------ *)
(** ** Quantifiers *)

Lemma nonEmpty_eqb (s : string) : String.eqb s "" = negb (nonEmpty s).
Proof. destruct s; reflexivity. Qed.

(** A class token under a quantifier is never grouped. *)
Lemma quantified_class_token (name rawRegExp : string) (w : bool) :
  nonEmpty (encodeSpecialToken name rawRegExp true) = true ->
  encodePattern (Possibly (SpecialToken name rawRegExp)) w
  = OK (encodeSpecialToken name rawRegExp true +:+ "?")
  /\ (forall greedy,
        encodePattern (ZeroOrMore (SpecialToken name rawRegExp) greedy) w
        = OK (encodeSpecialToken name rawRegExp true +:+ "*"
              +:+ greedySuffix greedy))
  /\ (forall greedy,
        encodePattern (OneOrMore (SpecialToken name rawRegExp) greedy) w
        = OK (encodeSpecialToken name rawRegExp true +:+ "+"
              +:+ greedySuffix greedy)).
Proof.
  intros Hne.
  repeat split; intros; cbn [encodePattern];
    unfold encodePattern_possibly, encodePattern_zeroOrMore,
      encodePattern_oneOrMore;
    cbn [encodePattern bind];
    rewrite nonEmpty_eqb, Hne; reflexivity.
Qed.

(** A content that is neither a string nor a class token is grouped. *)
Lemma quantified_object_grouped (content : Pattern) (contentString : string)
  (w : bool) :
  isStringOrClassToken content = false ->
  encodePattern content true = OK contentString ->
  nonEmpty contentString = true ->
  encodePattern (Possibly content) w = OK ("(?:" +:+ contentString +:+ ")?")
  /\ (forall greedy, encodePattern (ZeroOrMore content greedy) w
        = OK ("(?:" +:+ contentString +:+ ")*" +:+ greedySuffix greedy))
  /\ (forall greedy, encodePattern (OneOrMore content greedy) w
        = OK ("(?:" +:+ contentString +:+ ")+" +:+ greedySuffix greedy)).
Proof.
  intros Hkind Henc Hne.
  repeat split; intros; cbn [encodePattern];
    unfold encodePattern_possibly, encodePattern_zeroOrMore,
      encodePattern_oneOrMore;
    rewrite Henc; cbn [bind]; rewrite nonEmpty_eqb, Hne, Hkind; reflexivity.
Qed.

(** Every string literal under a quantifier, whatever its length, gets the
    suffix directly behind its escaped text. *)
Lemma quantified_string_not_grouped (s : string) (w : bool) :
  nonEmpty s = true ->
  encodePattern (Possibly (Str s)) w = OK (escapeStringForRegExp s +:+ "?")
  /\ (forall greedy, encodePattern (ZeroOrMore (Str s) greedy) w
        = OK (escapeStringForRegExp s +:+ "*" +:+ greedySuffix greedy))
  /\ (forall greedy, encodePattern (OneOrMore (Str s) greedy) w
        = OK (escapeStringForRegExp s +:+ "+" +:+ greedySuffix greedy)).
Proof.
  intros Hne.
  assert (Hesc : String.eqb (escapeStringForRegExp s) "" = false).
  { destruct s as [ | c rest]; [ discriminate | ].
    cbn [escapeStringForRegExp]. destruct (isMetaChar c); reflexivity. }
  repeat split; intros; cbn [encodePattern];
    unfold encodePattern_possibly, encodePattern_zeroOrMore,
      encodePattern_oneOrMore;
    cbn [encodePattern bind]; rewrite Hesc; reflexivity.
Qed.

(** C2. The claim: a quantifier around composite content, multi-character
    string literals included, wraps the content in a non-capturing group.
    In the code a string literal of several characters is not wrapped: the
    suffix lands behind its last character, so [possibly 'cat'] encodes to
    [cat?] and the documented [(?: How are you\?)?] comes out without its
    group. *)
Theorem quantified_multi_character_literal_not_grouped :
  encodePattern (possibly (Str "cat")) true = OK "cat?"
  /\ encodePattern (zeroOrMore (Str "cat")) true = OK "cat*"
  /\ encodePattern (oneOrMore (Str "cat")) true = OK "cat+"
  /\ encodePattern (Arr [Str "Hello world."; possibly (Str " How are you?")]) true
     = OK "Hello world\. How are you\??".
Proof. repeat split; reflexivity. Qed.

(* ------------------------------------------------------------------ *)
(** ** Repetition counts *)

Lemma toInt32_small (z : Z) :
  (- 2 ^ 31 <= z < 2 ^ 31)%Z -> toInt32 (Int z) = z.
Proof. intros Hz. unfold toInt32. rewrite Z.mod_small; lia. Qed.

(** The encoder writes [{min,}] for a node whose maximum is [Infinity]. *)
Lemma countString_unbounded (minCount : Z) :
  countString (Int minCount) Infinity = "{" +:+ decimal minCount +:+ ",}".
Proof. reflexivity. Qed.

Lemma countString_exact (n : Z) :
  countString (Int n) (Int n) = "{" +:+ decimal n +:+ "}".
Proof. unfold countString, strictEq. now rewrite Z.eqb_refl. Qed.

Lemma countString_bounded (minCount maxCount : Z) :
  minCount <> maxCount ->
  countString (Int minCount) (Int maxCount)
  = "{" +:+ decimal minCount +:+ "," +:+ decimal maxCount +:+ "}".
Proof.
  intros Hne. unfold countString, strictEq.
  destruct (Z.eqb_spec minCount maxCount); [ contradiction | reflexivity ].
Qed.

(** The range form without a maximum never builds a node whose maximum is
    [Infinity]: the coercion to 32 bits turns the default into 0. *)
Lemma repeated_min_only (minCount : number) (pattern : Pattern) :
  repeated (inr [minCount]) pattern
  = OK (Repeated pattern (bitor0 minCount) (Int 0) true)
  /\ repeatedNonGreedy pattern [minCount]
     = OK (Repeated pattern (bitor0 minCount) (Int 0) false).
Proof. split; reflexivity. Qed.

Lemma append_empty_r (s : string) : s +:+ "" = s.
Proof.
  induction s as [ | c rest IH]; [ reflexivity | ].
  change (String c rest +:+ "") with (String c (rest +:+ "")). now rewrite IH.
Qed.

(** Whatever the minimum, the range form without a maximum encodes with
    the maximum 0, never with an open upper end. *)
Lemma repeated_min_only_encoding (minCount : number) (content : Pattern)
  (contentString : string) (w : bool) :
  encodePattern content true = OK contentString ->
  nonEmpty contentString = true ->
  (do node <- repeated (inr [minCount]) content in encodePattern node w)
  = OK ("(?:" +:+ contentString +:+ ")"
        +:+ (if (toInt32 minCount =? 0)%Z then "{0}"
             else "{" +:+ decimal (toInt32 minCount) +:+ ",0}")).
Proof.
  intros Hcontent Hne.
  cbn [repeated badRangeLength length Nat.eqb Nat.ltb Nat.leb orb bind
       fst snd encodePattern].
  unfold encodePattern_repeated. rewrite Hcontent. cbn [bind].
  rewrite nonEmpty_eqb, Hne. cbn [negb greedySuffix].
  unfold countString, bitor0, strictEq, rangeMin, rangeMax.
  cbn [nth_error toInt32].
  destruct (Z.eqb_spec (toInt32 minCount) 0) as [-> | _];
    cbn [numberToString]; now rewrite append_empty_r.
Qed.

(** C3. The claim: [repeated([min], content)] encodes to the grouped
    content followed by [{min,}].  The encoder does so for a node whose
    maximum is [Infinity], but the constructors store 0 for the missing
    maximum, and the suffix comes out as [{2,0}] (or as [{0}] for a
    minimum of 0). *)
Theorem repeated_unbounded_encodes_zero_maximum :
  (do node <- repeated (inr [Int 2]) (Str "a") in encodePattern node true)
  = OK "(?:a){2,0}"
  /\ (do node <- repeatedNonGreedy (Str "a") [Int 2] in encodePattern node true)
     = OK "(?:a){2,0}?"
  /\ (do node <- repeated (inr [Int 0]) (Str "a") in encodePattern node true)
     = OK "(?:a){0}"
  /\ (do node <- repeated (inr [Int 2; Infinity]) (Str "a") in
      encodePattern node true)
     = OK "(?:a){2,0}"
  /\ encodePattern (Repeated (Str "a") (Int 2) Infinity true) true
     = OK "(?:a){2,}".
Proof. repeat split; reflexivity. Qed.

(** The claim of C6, that a range with a minimum above its maximum is
    refused, fails: the node is built. *)
Lemma repeated_accepts_min_above_max :
  repeated (inr [Int 5; Int 2]) (Str "a")
  = OK (Repeated (Str "a") (Int 5) (Int 2) true).
Proof. reflexivity. Qed.

Lemma badRangeLength_spec (range : list number) :
  badRangeLength range = true <-> length range = 0 \/ 2 < length range.
Proof.
  unfold badRangeLength. rewrite orb_true_iff, Nat.eqb_eq, Nat.ltb_lt.
  reflexivity.
Qed.

(** C6, amended.  The constructors of a [Repeated] node check the shape of
    the range only: the range form fails exactly when the range has
    neither one nor two entries, the count form never fails.  The counts
    are coerced to 32-bit integers and not compared, so that any two such
    integers, a negative minimum or a minimum above the maximum included,
    are stored as given. *)
Theorem repeated_checks_range_length_only (pattern : Pattern) :
  (forall range,
     (exists e, repeated (inr range) pattern = Throw e)
     <-> length range = 0 \/ 2 < length range)
  /\ (forall range,
        (exists e, repeatedNonGreedy pattern range = Throw e)
        <-> length range = 0 \/ 2 < length range)
  /\ (forall count,
        repeated (inl count) pattern
        = OK (Repeated pattern (bitor0 count) (bitor0 count) true))
  /\ (forall minCount maxCount,
        (- 2 ^ 31 <= minCount < 2 ^ 31)%Z ->
        (- 2 ^ 31 <= maxCount < 2 ^ 31)%Z ->
        repeated (inr [Int minCount; Int maxCount]) pattern
        = OK (Repeated pattern (Int minCount) (Int maxCount) true)
        /\ repeatedNonGreedy pattern [Int minCount; Int maxCount]
           = OK (Repeated pattern (Int minCount) (Int maxCount) false)).
Proof.
  split; [ | split; [ | split ] ].
  - intros range. rewrite <- badRangeLength_spec. unfold repeated.
    destruct (badRangeLength range); cbn.
    + split; eauto.
    + split; [ intros [e He]; discriminate | discriminate ].
  - intros range. rewrite <- badRangeLength_spec. unfold repeatedNonGreedy.
    destruct (badRangeLength range).
    + split; eauto.
    + split; [ intros [e He]; discriminate | discriminate ].
  - reflexivity.
  - intros minCount maxCount Hmin Hmax.
    unfold repeated, repeatedNonGreedy, bitor0.
    cbn [badRangeLength length Nat.eqb Nat.ltb Nat.leb orb bind fst snd
         rangeMin rangeMax nth_error].
    rewrite !toInt32_small by assumption. split; reflexivity.
Qed.

Lemma repeated_checks_range_length_only_witness :
  (- 2 ^ 31 <= 5 < 2 ^ 31)%Z /\ (- 2 ^ 31 <= -1 < 2 ^ 31)%Z
  /\ repeated (inr [Int 5; Int (-1)]) (Str "a")
     = OK (Repeated (Str "a") (Int 5) (Int (-1)) true).
Proof.
  assert (H5 : (- 2 ^ 31 <= 5 < 2 ^ 31)%Z) by lia.
  assert (H1 : (- 2 ^ 31 <= -1 < 2 ^ 31)%Z) by lia.
  split; [ exact H5 | split; [ exact H1 | ] ].
  destruct (repeated_checks_range_length_only (Str "a")) as (_ & _ & _ & Hany).
  exact (proj1 (Hany 5%Z (-1)%Z H5 H1)).
Defined.

(* ------------------------------------------------------------------ *)
(** ** Codepoints *)

(** What passes the range check is an integer from 0 to 0x10FFFF. *)
Lemma assertValidNumericCodepoint_OK (x : number) :
  assertValidNumericCodepoint x = OK tt
  <-> exists z, x = Int z /\ (0 <= z <= 1114111)%Z.
Proof.
  unfold assertValidNumericCodepoint, numGt, numLt.
  destruct x as [z | | | ]; cbn;
    try (split; [ discriminate | intros (z' & Heq & _); discriminate ]).
  destruct (Z.ltb_spec z 0), (Z.ltb_spec 1114111 z); cbn;
    (split;
     [ first [ discriminate | intros _; exists z; split; [ reflexivity | lia ] ]
     | intros (z' & Heq & Hz); injection Heq as <-; try reflexivity; lia ]).
Qed.

(** What [codepoint] does check: the value read from an accepted string
    is an integer from 0 to 0x10FFFF. *)
Lemma codepoint_token_value_in_range (hexString : string) (token : Pattern) :
  codepoint (inl hexString) = OK token ->
  token = SpecialToken "codepoint" ("\u{" +:+ toLowerCase hexString +:+ "}")
  /\ exists z, parseInt16 (toLowerCase hexString) = Int z
               /\ (0 <= z <= 1114111)%Z.
Proof.
  unfold codepoint.
  destruct (hexRegExpTest (toLowerCase hexString)); [ discriminate | ].
  destruct (assertValidNumericCodepoint (parseInt16 (toLowerCase hexString)))
    as [[] | e] eqn:Hvalid; [ | discriminate ].
  cbn [bind]. intros [= <-]. split; [ reflexivity | ].
  now apply assertValidNumericCodepoint_OK.
Qed.

(** C4. The claim: [codepoint] refuses every string that is not made of
    one to six hexadecimal digits.  The code tests the lowered string
    against an expression that only matches a digit followed by the
    characters [{1, 6}], throws when it matches, and then reads the
    longest hexadecimal prefix: [1g] and the seven digits [0000041] both
    pass and end up inside a token. *)
Theorem codepoint_accepts_malformed_hex :
  codepoint (inl "1g") = OK (SpecialToken "codepoint" "\u{1g}")
  /\ codepoint (inl "0000041") = OK (SpecialToken "codepoint" "\u{0000041}")
  /\ codepoint (inl "f{1, 6}") = Throw CodepointBadHex
  /\ codepoint (inl "110000") = Throw CodepointOutOfRange
  /\ codepoint (inl "41") = OK (SpecialToken "codepoint" "\u{41}").
Proof. repeat split; reflexivity. Qed.

(* ------------------------------------------------------------------ *)
(** ** The disjunction encoder *)

(** *** The encoder of a disjunction runs on the members themselves *)

Lemma mapM_map {A B C : Type} (f : A -> B) (g : B -> result C) (l : list A) :
  mapM g (List.map f l) = mapM (fun x => g (f x)) l.
Proof.
  induction l as [ | x rest IH]; [ reflexivity | ].
  cbn [List.map mapM]. now rewrite IH.
Qed.

Lemma last_map_nil {A B : Type} (f : A -> B) (groups : list (list A)) :
  List.last (List.map (List.map f) groups) [] = List.map f (List.last groups []).
Proof.
  induction groups as [ | g rest IH]; [ reflexivity | ].
  destruct rest as [ | g' rest']; [ reflexivity | ].
  exact IH.
Qed.

Lemma removelast_map {A B : Type} (f : A -> B) (l : list A) :
  removelast (List.map f l) = List.map f (removelast l).
Proof.
  induction l as [ | x rest IH]; [ reflexivity | ].
  destruct rest as [ | y rest']; [ reflexivity | ].
  cbn [List.map removelast] in *. now rewrite IH.
Qed.

Section Naturality.
Context {M N : Type} (f : M -> N).
Variable isSingle : N -> result bool.
Variable encode : N -> bool -> result string.

Let isSingle' : M -> result bool := fun m => isSingle (f m).
Let encode' : M -> bool -> result string := fun m => encode (f m).

Lemma groupMember_map (patternGroups : list (list M)) (member : M) :
  groupMember isSingle (List.map (List.map f) patternGroups) (f member)
  = do groups <- groupMember isSingle' patternGroups member in
    OK (List.map (List.map f) groups).
Proof.
  unfold groupMember. rewrite last_map_nil.
  destruct (List.last patternGroups []) as [ | first others].
  - cbn [List.map bind].
    rewrite removelast_map, !List.map_app; cbn [List.map]; rewrite ?List.map_app; reflexivity.
  - cbn [List.map]. unfold isSingle'.
    destruct (isSingle (f member)) as [a | e]; [ | reflexivity ].
    destruct (isSingle (f first)) as [b | e]; [ | reflexivity ].
    cbn [bind]. destruct (Bool.eqb a b); cbn [bind].
    + rewrite removelast_map, !List.map_app; cbn [List.map]; rewrite ?List.map_app; reflexivity.
    + rewrite !List.map_app; reflexivity.
Qed.

Lemma forOf_groupMember_map (members : list M) :
  forall patternGroups,
  forOf (groupMember isSingle) (List.map f members)
    (List.map (List.map f) patternGroups)
  = do groups <- forOf (groupMember isSingle') members patternGroups in
    OK (List.map (List.map f) groups).
Proof.
  induction members as [ | member rest IH]; intros patternGroups.
  - reflexivity.
  - cbn [List.map forOf]. rewrite groupMember_map.
    destruct (groupMember isSingle' patternGroups member) as [groups | e];
      [ | reflexivity ].
    cbn [bind]. apply IH.
Qed.

Lemma encodeGroup_map (strings : list string) (patternGroup : list M) :
  encodeGroup isSingle encode strings (List.map f patternGroup)
  = encodeGroup isSingle' encode' strings patternGroup.
Proof.
  unfold encodeGroup.
  destruct patternGroup as [ | first others]; [ reflexivity | ].
  rewrite !mapM_map. reflexivity.
Qed.

Lemma forOf_encodeGroup_map (groups : list (list M)) :
  forall strings,
  forOf (encodeGroup isSingle encode) (List.map (List.map f) groups) strings
  = forOf (encodeGroup isSingle' encode') groups strings.
Proof.
  induction groups as [ | g rest IH]; intros strings; [ reflexivity | ].
  cbn [List.map forOf]. rewrite encodeGroup_map.
  apply bind_ext. intros; apply IH.
Qed.

(** Encoding the images of the members is encoding the members with the
    classifier and the encoder composed with the map. *)
Lemma encodePattern_anyOf_map (members : list M) :
  encodePattern_anyOf isSingle encode (List.map f members)
  = encodePattern_anyOf isSingle' encode' members.
Proof.
  unfold encodePattern_anyOf. rewrite List.length_map.
  destruct (length members =? 0)%nat; [ reflexivity | ].
  change [[]] with (List.map (List.map f) [[]]) at 1.
  rewrite forOf_groupMember_map.
  destruct (forOf (groupMember isSingle') members [[]]) as [groups | e];
    [ | reflexivity ].
  cbn [bind]. rewrite forOf_encodeGroup_map; reflexivity.
Qed.
End Naturality.

(** The [AnyOf] case of [encodePattern] is [encodePattern_anyOf] of the
    source: the members are grouped by [isSingleCharPattern] and encoded
    by [encodePattern]. *)
Lemma encodePattern_AnyOf (members : list Pattern) (w : bool) :
  encodePattern (AnyOf members) w
  = encodePattern_anyOf isSingleCharPattern encodePattern members.
Proof.
  cbn [encodePattern].
  rewrite (encodePattern_anyOf_map (fun member => (member, encodePattern member))).
  reflexivity.
Qed.

(** *** The grouping loop builds the maximal runs *)

Lemma runs_cons {A : Type} (cls : A -> bool) (x : A) (rest : list A) :
  runs cls (x :: rest) =
  match runs cls rest with
  | (y :: run) :: others =>
      if Bool.eqb (cls x) (cls y) then (x :: y :: run) :: others
      else [x] :: (y :: run) :: others
  | _ => [[x]]
  end.
Proof. reflexivity. Qed.

Lemma runs_cons_shape {A : Type} (cls : A -> bool) (x : A) (rest : list A) :
  exists run others, runs cls (x :: rest) = (x :: run) :: others.
Proof.
  rewrite runs_cons.
  destruct (runs cls rest) as [ | [ | y run] others]; eauto.
  destruct (Bool.eqb (cls x) (cls y)); eauto.
Qed.

Lemma concat_removelast_last {A : Type} (groups : list (list A)) :
  concat groups = concat (removelast groups) ++ List.last groups [].
Proof.
  induction groups as [ | g rest IH]; [ reflexivity | ].
  destruct rest as [ | g' rest'].
  - cbn. now rewrite app_nil_r.
  - change (removelast (g :: g' :: rest')) with (g :: removelast (g' :: rest')).
    change (List.last (g :: g' :: rest') []) with (List.last (g' :: rest') []).
    cbn [concat]. rewrite IH at 1. now rewrite app_assoc.
Qed.

Lemma groupMember_peel {A : Type} (isSingle : A -> result bool)
  (g g' : list A) (rest : list (list A)) (x : A) :
  groupMember isSingle (g :: g' :: rest) x
  = do groups <- groupMember isSingle (g' :: rest) x in OK (g :: groups).
Proof.
  unfold groupMember.
  change (removelast (g :: g' :: rest)) with (g :: removelast (g' :: rest)).
  change (List.last (g :: g' :: rest) []) with (List.last (g' :: rest) []).
  destruct (List.last (g' :: rest) []) as [ | first others];
    [ reflexivity | ].
  destruct (isSingle x) as [a | e]; [ | reflexivity ].
  destruct (isSingle first) as [b | e]; [ | reflexivity ].
  cbn [bind]. destruct (Bool.eqb a b); reflexivity.
Qed.

Section Grouping.
Context {A : Type}.
Variable isSingle : A -> result bool.
Variable cls : A -> bool.

Let total : A -> result bool := fun x => OK (cls x).
Let agrees (x : A) : Prop := isSingle x = OK (cls x).

Lemma groupMember_concat (groups groups' : list (list A)) (x : A) :
  groupMember isSingle groups x = OK groups' ->
  concat groups' = concat groups ++ [x].
Proof.
  unfold groupMember. intros Hstep.
  assert (Hpush :
    concat (removelast groups ++ [List.last groups [] ++ [x]])
    = concat groups ++ [x]).
  { rewrite concat_app, (concat_removelast_last groups) at 1.
    cbn [concat]. now rewrite app_nil_r, app_assoc. }
  destruct (List.last groups []) as [ | first others].
  - cbn [bind] in Hstep. injection Hstep as <-. exact Hpush.
  - destruct (isSingle x) as [a | e]; [ | discriminate ].
    destruct (isSingle first) as [b | e]; [ | discriminate ].
    cbn [bind] in Hstep. destruct (Bool.eqb a b); injection Hstep as <-.
    + exact Hpush.
    + rewrite concat_app. cbn [concat]. now rewrite app_nil_r.
Qed.

(** Where the classifier does not throw, a step of the loop is a step
    with the total classifier. *)
Lemma groupMember_agrees (groups : list (list A)) (x : A) :
  agrees x -> List.Forall agrees (concat groups) ->
  groupMember isSingle groups x = groupMember total groups x.
Proof.
  intros Hx Hgroups. unfold groupMember.
  rewrite (concat_removelast_last groups) in Hgroups.
  apply List.Forall_app in Hgroups as [_ Hlast].
  destruct (List.last groups []) as [ | first others]; [ reflexivity | ].
  apply List.Forall_inv in Hlast. unfold agrees in Hx, Hlast.
  now rewrite Hx, Hlast.
Qed.

Lemma forOf_groupMember_agrees (members : list A) :
  forall groups,
  List.Forall agrees members -> List.Forall agrees (concat groups) ->
  forOf (groupMember isSingle) members groups
  = forOf (groupMember total) members groups.
Proof.
  induction members as [ | x rest IH]; intros groups Hmembers Hgroups;
    [ reflexivity | ].
  apply List.Forall_cons_iff in Hmembers as [Hx Hrest].
  cbn [forOf]. rewrite (groupMember_agrees groups x Hx Hgroups).
  destruct (groupMember total groups x) as [groups' | e] eqn:Hstep;
    [ | reflexivity ].
  cbn [bind]. apply IH; [ exact Hrest | ].
  rewrite <- (groupMember_agrees groups x Hx Hgroups) in Hstep.
  rewrite (groupMember_concat _ _ _ Hstep).
  apply List.Forall_app. split; [ exact Hgroups | ].
  constructor; [ exact Hx | constructor ].
Qed.

Lemma groupMember_single (first x : A) (others : list A) :
  groupMember total [first :: others] x
  = OK (if Bool.eqb (cls x) (cls first)
        then [(first :: others) ++ [x]]
        else [first :: others; [x]]).
Proof.
  unfold groupMember, total. cbn.
  destruct (Bool.eqb (cls x) (cls first)); reflexivity.
Qed.

(** Adding a member in front of the runs and adding one behind them
    commute. *)
Lemma groupMember_cons_run (a b x : A) (run : list A)
  (others groups' : list (list A)) :
  groupMember total ((b :: run) :: others) x = OK groups' ->
  groupMember total
    (if Bool.eqb (cls a) (cls b) then (a :: b :: run) :: others
     else [a] :: (b :: run) :: others) x
  = OK (match groups' with
        | (y :: run') :: others' =>
            if Bool.eqb (cls a) (cls y) then (a :: y :: run') :: others'
            else [a] :: (y :: run') :: others'
        | _ => [[a]]
        end).
Proof.
  destruct others as [ | g rest].
  - rewrite groupMember_single. intros [= <-].
    destruct (Bool.eqb (cls a) (cls b)) eqn:Hab.
    + rewrite groupMember_single.
      apply Bool.eqb_prop in Hab. rewrite Hab.
      destruct (Bool.eqb (cls x) (cls b)); cbn [app];
        now rewrite Bool.eqb_reflx.
    + rewrite groupMember_peel, groupMember_single. cbn [bind].
      destruct (Bool.eqb (cls x) (cls b)); cbn [app]; now rewrite Hab.
  - rewrite groupMember_peel.
    destruct (groupMember total (g :: rest) x) as [groups | e] eqn:Hstep;
      [ | discriminate ].
    cbn [bind]. intros [= <-].
    destruct (Bool.eqb (cls a) (cls b)).
    + now rewrite groupMember_peel, Hstep.
    + now rewrite !groupMember_peel, Hstep.
Qed.

Lemma groupMember_runs (pre : list A) (x : A) :
  pre <> [] ->
  groupMember total (runs cls pre) x = OK (runs cls (pre ++ [x])).
Proof.
  induction pre as [ | a pre IH]; [ congruence | ]. intros _.
  destruct pre as [ | b pre'].
  - cbn [runs app]. rewrite groupMember_single.
    destruct (cls x), (cls a); reflexivity.
  - assert (Hpre : b :: pre' <> []) by discriminate.
    specialize (IH Hpre).
    destruct (runs_cons_shape cls b pre') as (run & others & Hshape).
    change ((a :: b :: pre') ++ [x]) with (a :: ((b :: pre') ++ [x])).
    rewrite (runs_cons cls a (b :: pre')), (runs_cons cls a ((b :: pre') ++ [x])).
    rewrite Hshape in IH |- *.
    now apply groupMember_cons_run.
Qed.

Lemma forOf_groupMember_runs (members : list A) :
  forall pre, pre <> [] ->
  forOf (groupMember total) members (runs cls pre)
  = OK (runs cls (pre ++ members)).
Proof.
  induction members as [ | x rest IH]; intros pre Hpre.
  - now rewrite app_nil_r.
  - cbn [forOf]. rewrite (groupMember_runs pre x Hpre). cbn [bind].
    rewrite IH by (destruct pre; discriminate).
    now rewrite <- app_assoc.
Qed.

(** The grouping loop, started on one empty group, ends with the maximal
    runs of the members. *)
Lemma forOf_groupMember (x : A) (rest : list A) :
  List.Forall agrees (x :: rest) ->
  forOf (groupMember isSingle) (x :: rest) [[]] = OK (runs cls (x :: rest)).
Proof.
  intros Hagree.
  rewrite forOf_groupMember_agrees by (assumption || constructor).
  cbn [forOf]. change (groupMember total [[]] x) with (OK (runs cls [x])).
  cbn [bind]. apply (forOf_groupMember_runs rest [x]). discriminate.
Qed.
End Grouping.

(** The runs are a partition of the members, in their order. *)
Lemma runs_concat {A : Type} (cls : A -> bool) (l : list A) :
  concat (runs cls l) = l.
Proof.
  induction l as [ | x rest IH]; [ reflexivity | ].
  destruct rest as [ | b rest']; [ reflexivity | ].
  destruct (runs_cons_shape cls b rest') as (run & others & Hshape).
  rewrite runs_cons. rewrite Hshape in IH |- *.
  destruct (Bool.eqb (cls x) (cls b)); cbn [concat app] in *; now rewrite IH.
Qed.

(** Every run is non-empty and its members have one classification. *)
Lemma runs_homogeneous {A : Type} (cls : A -> bool) (l : list A) :
  List.Forall
    (fun run => exists x rest,
       run = x :: rest /\ List.Forall (fun y => cls y = cls x) run)
    (runs cls l).
Proof.
  induction l as [ | a rest IH]; [ constructor | ].
  rewrite runs_cons.
  assert (Hone : exists x others,
            [a] = x :: others /\ List.Forall (fun y => cls y = cls x) [a]).
  { exists a, []. split; [ reflexivity | repeat constructor ]. }
  destruct (runs cls rest) as [ | [ | y run] others].
  - constructor; [ exact Hone | constructor ].
  - constructor; [ exact Hone | constructor ].
  - apply List.Forall_cons_iff in IH as [(x & tail & [= <- <-] & Hrun) Hothers].
    destruct (Bool.eqb (cls a) (cls y)) eqn:Hay.
    + apply Bool.eqb_prop in Hay. constructor; [ | exact Hothers ].
      exists a, (y :: run). split; [ reflexivity | ].
      constructor; [ reflexivity | ].
      revert Hrun. apply List.Forall_impl. intros z Hz. congruence.
    + constructor; [ exact Hone | ].
      constructor; [ | exact Hothers ].
      exists y, run. split; [ reflexivity | exact Hrun ].
Qed.

(** The runs are maximal: two neighbouring runs differ in their
    classification. *)
Lemma runs_maximal {A : Type} (cls : A -> bool) (l : list A) :
  forall front r1 r2 back,
  runs cls l = front ++ r1 :: r2 :: back ->
  forall x y, In x r1 -> In y r2 -> cls x <> cls y.
Proof.
  induction l as [ | a rest IH]; intros front r1 r2 back Hruns x y Hx Hy.
  - destruct front; discriminate.
  - destruct rest as [ | b rest'].
    + destruct front as [ | f [ | f' front']]; discriminate.
    + destruct (runs_cons_shape cls b rest') as (run & others & Hshape).
      pose proof (runs_homogeneous cls (b :: rest')) as Hhom.
      rewrite Hshape in Hhom.
      apply List.Forall_inv in Hhom as (b' & tail & [= <- <-] & Hrun).
      rewrite runs_cons, Hshape in Hruns.
      destruct (Bool.eqb (cls a) (cls b)) eqn:Hab.
      * apply Bool.eqb_prop in Hab.
        destruct front as [ | f front']; cbn [app] in Hruns;
          injection Hruns as Hfirst Hothers.
        -- subst r1 others.
           assert (Hb : forall z, In z (b :: run) -> cls z <> cls y).
           { intros z Hz. apply (IH [] (b :: run) r2 back Hshape z y Hz Hy). }
           destruct Hx as [<- | Hx]; [ | exact (Hb x Hx) ].
           rewrite Hab. apply Hb. now left.
        -- subst f others.
           apply (IH ((b :: run) :: front') r1 r2 back Hshape x y Hx Hy).
      * apply Bool.eqb_false_iff in Hab.
        destruct front as [ | f front']; cbn [app] in Hruns.
        -- injection Hruns as Hr1 Hr2 _. subst r1 r2.
           destruct Hx as [<- | []].
           rewrite List.Forall_forall in Hrun. rewrite (Hrun y Hy).
           exact Hab.
        -- injection Hruns as _ Hothers. rewrite Hothers in Hshape.
           apply (IH front' r1 r2 back Hshape x y Hx Hy).
Qed.

(** *** The loop over the groups gives the outputs of the runs *)

Lemma nonEmpty_escapeDash (s : string) : nonEmpty (escapeDash s) = nonEmpty s.
Proof.
  unfold escapeDash. destruct (String.eqb_spec s "-") as [-> | _]; reflexivity.
Qed.

(** Escaping the hyphens and dropping the empty fragments commute. *)
Lemma filter_nonEmpty_escapeDash (fragments : list string) :
  List.filter nonEmpty (List.map escapeDash fragments)
  = List.map escapeDash (List.filter nonEmpty fragments).
Proof.
  induction fragments as [ | s rest IH]; [ reflexivity | ].
  cbn [List.map List.filter]. rewrite nonEmpty_escapeDash.
  destruct (nonEmpty s); cbn [List.map]; now rewrite IH.
Qed.

(** Away from the empty string literal the classifier of the source does
    not throw, and it tells the atomic patterns from the composite ones. *)
Lemma isSingleCharPattern_isAtomic (pattern : Pattern) :
  pattern <> Str "" -> isSingleCharPattern pattern = OK (isAtomic pattern).
Proof.
  intros Hne. destruct pattern as [s | | | | | | | | | | | | | | ];
    try reflexivity.
  destruct s as [ | c rest]; [ congruence | ].
  cbn. destruct rest; reflexivity.
Qed.

Lemma encodeGroup_runOutput (strings : list string) (patternGroup : list Pattern) :
  List.Forall (fun member => member <> Str "") patternGroup ->
  encodeGroup isSingleCharPattern encodePattern strings patternGroup
  = do output <- runOutput patternGroup in OK (strings ++ output).
Proof.
  intros Hgroup. unfold encodeGroup, runOutput.
  destruct patternGroup as [ | first others].
  - cbn [bind]. now rewrite app_nil_r.
  - apply List.Forall_inv in Hgroup.
    rewrite (isSingleCharPattern_isAtomic first Hgroup). cbn [bind].
    destruct (isAtomic first).
    + unfold atomicRunOutput.
      destruct (mapM _ (first :: others)) as [encoded | e]; [ | reflexivity ].
      cbn [bind]. rewrite filter_nonEmpty_escapeDash.
      destruct (List.map escapeDash (List.filter nonEmpty encoded));
        cbn [length Nat.ltb Nat.leb bind]; [ now rewrite app_nil_r | reflexivity ].
    + unfold compositeRunOutput.
      destruct (mapM _ (first :: others)) as [encoded | e]; reflexivity.
Qed.

Lemma forOf_encodeGroup (groups : list (list Pattern)) :
  forall strings,
  List.Forall (List.Forall (fun member => member <> Str "")) groups ->
  forOf (encodeGroup isSingleCharPattern encodePattern) groups strings
  = do outputs <- mapM runOutput groups in OK (strings ++ concat outputs).
Proof.
  induction groups as [ | g rest IH]; intros strings Hgroups.
  - cbn [forOf mapM bind concat]. now rewrite app_nil_r.
  - apply List.Forall_cons_iff in Hgroups as [Hg Hrest].
    cbn [forOf mapM]. rewrite (encodeGroup_runOutput strings g Hg).
    destruct (runOutput g) as [output | e]; [ | reflexivity ].
    cbn [bind]. rewrite (IH _ Hrest).
    destruct (mapM runOutput rest) as [outputs | e]; [ | reflexivity ].
    cbn [bind concat]. now rewrite app_assoc.
Qed.

(** The claim of C5 includes that a disjunction whose members all encode
    to the empty string encodes to the empty string.  The empty string
    literal encodes to the empty string, and a disjunction that holds it
    does not encode at all. *)
Lemma encodePattern_anyOf_empty_literal :
  encodePattern (Str "") false = OK ""
  /\ encodePattern (anyOf [Str ""]) true = Throw ZeroLengthString.
Proof. split; reflexivity. Qed.

(** C5, amended.  When no member is the empty string literal, the
    encoding of [anyOf members] is the reference encoding: the members
    are cut into the maximal runs of atomic and of composite neighbours;
    an atomic run gives one character class of the unwrapped encodings,
    with a bare hyphen escaped and empty encodings dropped (and nothing
    when nothing is left); the members of a composite run stay branches
    of their own, empty ones dropped; the outputs are joined by a bar in
    the order of the members, inside one non-capturing group, and no
    output at all gives the empty string.  A member that fails to encode
    makes the disjunction fail with the same error. *)
Theorem encodePattern_anyOf_runs (members : list Pattern) (w : bool) :
  List.Forall (fun member => member <> Str "") members ->
  encodePattern (anyOf members) w = anyOfReference members.
Proof.
  intros Hmembers. unfold anyOf. rewrite encodePattern_AnyOf.
  unfold encodePattern_anyOf, anyOfReference.
  destruct members as [ | x rest]; [ reflexivity | ].
  cbn [length Nat.eqb].
  rewrite (forOf_groupMember isSingleCharPattern isAtomic x rest).
  - cbn [bind]. rewrite forOf_encodeGroup.
    + destruct (mapM runOutput _) as [outputs | e]; [ | reflexivity ].
      cbn [bind app]. destruct (concat outputs); reflexivity.
    + apply List.Forall_concat. now rewrite runs_concat.
  - revert Hmembers. apply List.Forall_impl.
    exact isSingleCharPattern_isAtomic.
Qed.

Lemma encodePattern_anyOf_runs_witness :
  List.Forall (fun member => member <> Str "")
    [Str "a"; Str "b"; Str "cat"; Str "d"]
  /\ encodePattern (anyOf [Str "a"; Str "b"; Str "cat"; Str "d"]) true
     = OK "(?:[ab]|cat|[d])".
Proof.
  assert (Hmembers : List.Forall (fun member => member <> Str "")
                       [Str "a"; Str "b"; Str "cat"; Str "d"]).
  { repeat constructor; discriminate. }
  split; [ exact Hmembers | ].
  exact (eq_trans (encodePattern_anyOf_runs _ true Hmembers) eq_refl).
Defined.

(* ================================================================== *)
(** * Further properties of the code *)

(** ** Escaping of literals *)

Lemma isMetaChar_backslash (c : ascii) :
  isMetaChar c = false -> Ascii.eqb c "\" = false.
Proof.
  intros Hc. destruct (Ascii.eqb_spec c "\") as [-> | _]; [ | reflexivity ].
  discriminate Hc.
Qed.

(** X1. A literal without any of the metacharacters is encoded
    unchanged. *)
Theorem escapeStringForRegExp_plain (str : string) :
  forallb (fun c => negb (isMetaChar c)) (list_ascii_of_string str) = true ->
  encodePattern (Str str) true = OK str.
Proof.
  intros Hplain. cbn [encodePattern]. f_equal.
  induction str as [ | c rest IH]; [ reflexivity | ].
  cbn [list_ascii_of_string forallb] in Hplain.
  apply andb_true_iff in Hplain as [Hc Hrest].
  apply negb_true_iff in Hc.
  cbn [escapeStringForRegExp]. rewrite Hc. now rewrite (IH Hrest).
Qed.

Lemma escapeStringForRegExp_plain_witness :
  forallb (fun c => negb (isMetaChar c)) (list_ascii_of_string "Hello world")
  = true
  /\ encodePattern (Str "Hello world") true = OK "Hello world".
Proof.
  split; [ reflexivity | ].
  apply escapeStringForRegExp_plain. reflexivity.
Defined.

(** X2. The escaping can be undone: dropping every escaping backslash of
    the encoded literal gives the literal back, so two different literals
    never have the same encoding. *)
Theorem unescape_escapeStringForRegExp :
  (forall str, unescape (escapeStringForRegExp str) = str)
  /\ (forall s1 s2,
        encodePattern (Str s1) true = encodePattern (Str s2) true -> s1 = s2).
Proof.
  assert (Hround : forall str, unescape (escapeStringForRegExp str) = str).
  { induction str as [ | c rest IH]; [ reflexivity | ].
    cbn [escapeStringForRegExp].
    destruct (isMetaChar c) eqn:Hc.
    - cbn [unescape]. rewrite Ascii.eqb_refl. now rewrite IH.
    - cbn [unescape]. rewrite (isMetaChar_backslash c Hc). now rewrite IH. }
  split; [ exact Hround | ].
  intros s1 s2 Heq. cbn [encodePattern] in Heq. injection Heq as Heq.
  rewrite <- (Hround s1), <- (Hround s2). now rewrite Heq.
Qed.

Lemma unescape_escapeStringForRegExp_witness :
  encodePattern (Str "a.b") true = encodePattern (Str "a.b") true
  /\ unescape (escapeStringForRegExp "a.b") = "a.b"
  /\ "a.b" = "a.b".
Proof.
  split; [ reflexivity | split ].
  - exact (proj1 unescape_escapeStringForRegExp "a.b").
  - exact (proj2 unescape_escapeStringForRegExp "a.b" "a.b" eq_refl).
Defined.

Lemma escapeStringForRegExp_app (s1 s2 : string) :
  escapeStringForRegExp (s1 +:+ s2)
  = escapeStringForRegExp s1 +:+ escapeStringForRegExp s2.
Proof.
  induction s1 as [ | c rest IH]; [ reflexivity | ].
  change (String c rest +:+ s2) with (String c (rest +:+ s2)).
  cbn [escapeStringForRegExp]. rewrite IH.
  destruct (isMetaChar c); reflexivity.
Qed.

(* ------------------------------------------------------------------ *)
(** ** Sequences *)

Lemma append_assoc (s1 s2 s3 : string) :
  (s1 +:+ s2) +:+ s3 = s1 +:+ (s2 +:+ s3).
Proof.
  induction s1 as [ | c rest IH]; [ reflexivity | ].
  change (String c rest +:+ s2) with (String c (rest +:+ s2)).
  change (String c (rest +:+ s2) +:+ s3) with (String c ((rest +:+ s2) +:+ s3)).
  now rewrite IH.
Qed.

Lemma join_empty_cons (part : string) (parts : list string) :
  join "" (part :: parts) = part +:+ join "" parts.
Proof.
  unfold join. destruct parts as [ | p rest].
  - cbn [String.concat]. now rewrite append_empty_r.
  - reflexivity.
Qed.

Lemma join_empty_app (parts1 parts2 : list string) :
  join "" (parts1 ++ parts2) = join "" parts1 +:+ join "" parts2.
Proof.
  induction parts1 as [ | p rest IH]; [ reflexivity | ].
  cbn [app]. now rewrite !join_empty_cons, IH, append_assoc.
Qed.

Lemma mapM_app {A B : Type} (f : A -> result B) (l1 l2 : list A) :
  mapM f (l1 ++ l2)
  = do ys1 <- mapM f l1 in do ys2 <- mapM f l2 in OK (ys1 ++ ys2).
Proof.
  induction l1 as [ | x rest IH].
  - cbn [app mapM bind]. destruct (mapM f l2); reflexivity.
  - cbn [app mapM]. rewrite IH.
    destruct (f x); [ | reflexivity ]. cbn [bind].
    destruct (mapM f rest); [ | reflexivity ]. cbn [bind].
    destruct (mapM f l2); reflexivity.
Qed.

(** X3. Two literals in a row are encoded like the one literal made of
    both. *)
Theorem encodePattern_literals_concatenate (s1 s2 : string) (w : bool) :
  encodePattern (Arr [Str s1; Str s2]) w = encodePattern (Str (s1 +:+ s2)) w.
Proof.
  cbn [encodePattern mapM bind].
  now rewrite !join_empty_cons, escapeStringForRegExp_app, append_empty_r.
Qed.

(** X4. An array nested in an array is encoded like the array with the
    inner elements in its place, errors included. *)
Theorem encodePattern_nested_array (before inner after : list Pattern)
  (w : bool) :
  encodePattern (Arr (before ++ Arr inner :: after)) w
  = encodePattern (Arr (before ++ inner ++ after)) w.
Proof.
  cbn [encodePattern]. rewrite !mapM_app. cbn [mapM encodePattern].
  destruct (mapM _ before) as [parts1 | e]; [ | reflexivity ]. cbn [bind].
  destruct (mapM _ inner) as [parts2 | e]; [ | reflexivity ]. cbn [bind].
  destruct (mapM _ after) as [parts3 | e]; [ | reflexivity ]. cbn [bind].
  now rewrite !join_empty_app, join_empty_cons.
Qed.

(* ------------------------------------------------------------------ *)
(** ** Induction on patterns *)

Section PatternInduction.
Variable P : Pattern -> Prop.
Hypothesis HStr : forall s, P (Str s).
Hypothesis HArr : forall elements, List.Forall P elements -> P (Arr elements).
Hypothesis HSpecialToken : forall name rawRegExp, P (SpecialToken name rawRegExp).
Hypothesis HPossibly : forall content, P content -> P (Possibly content).
Hypothesis HZeroOrMore :
  forall content greedy, P content -> P (ZeroOrMore content greedy).
Hypothesis HOneOrMore :
  forall content greedy, P content -> P (OneOrMore content greedy).
Hypothesis HRepeated :
  forall content minCount maxCount greedy,
  P content -> P (Repeated content minCount maxCount greedy).
Hypothesis HPrecededBy : forall content, P content -> P (PrecededBy content).
Hypothesis HNotPrecededBy : forall content, P content -> P (NotPrecededBy content).
Hypothesis HFollowedBy : forall content, P content -> P (FollowedBy content).
Hypothesis HNotFollowedBy : forall content, P content -> P (NotFollowedBy content).
Hypothesis HAnyOf : forall members, List.Forall P members -> P (AnyOf members).
Hypothesis HNotAnyOf : forall members, List.Forall P members -> P (NotAnyOf members).
Hypothesis HCapture : forall name content, P content -> P (Capture name content).
Hypothesis HSameAs : forall reference, P (SameAs reference).

Lemma Pattern_induction : forall pattern, P pattern.
Proof.
  fix IH 1. intros pattern.
  assert (Hlist : forall l, List.Forall P l).
  { intros l. induction l as [ | x rest IHrest]; constructor;
      [ apply IH | exact IHrest ]. }
  destruct pattern.
  - apply HStr.
  - apply HArr, Hlist.
  - apply HSpecialToken.
  - apply HPossibly, IH.
  - apply HZeroOrMore, IH.
  - apply HOneOrMore, IH.
  - apply HRepeated, IH.
  - apply HPrecededBy, IH.
  - apply HNotPrecededBy, IH.
  - apply HFollowedBy, IH.
  - apply HNotFollowedBy, IH.
  - apply HAnyOf, Hlist.
  - apply HNotAnyOf, Hlist.
  - apply HCapture, IH.
  - apply HSameAs.
Qed.
End PatternInduction.

(* ------------------------------------------------------------------ *)
(** ** Negated classes *)

Lemma mapM_OK_iff {A B : Type} (f : A -> result B) (l : list A) :
  (exists ys, mapM f l = OK ys) <-> List.Forall (fun x => exists y, f x = OK y) l.
Proof.
  induction l as [ | x rest IH].
  - split; [ constructor | intros _; now exists [] ].
  - cbn [mapM]. split.
    + intros [ys Hys]. destruct (f x) as [y | e] eqn:Hx; [ | discriminate ].
      cbn [bind] in Hys.
      destruct (mapM f rest) as [ys' | e]; [ | discriminate ].
      constructor; [ now exists y | ]. apply IH. now exists ys'.
    + intros Hall. apply List.Forall_cons_iff in Hall as [[y Hy] Hrest].
      apply IH in Hrest as [ys Hys]. rewrite Hy, Hys. now exists (y :: ys).
Qed.

Lemma isAtomic_encodes (member : Pattern) (w : bool) :
  isAtomic member = true -> exists s, encodePattern member w = OK s.
Proof.
  destruct member; try discriminate; intros _; cbn [encodePattern]; eauto.
Qed.

Lemma notAnyOfMember_atomic (strings : list string) (member : Pattern) :
  isAtomic member = true ->
  notAnyOfMember encodePattern strings member
  = do encoded <- encodePattern member false in OK (strings ++ [encoded]).
Proof.
  destruct member as [s | | | | | | | | | | | | | | ]; try discriminate.
  - cbn [isAtomic]. intros Hs. destruct s as [ | c [ | c' rest]]; try discriminate.
    reflexivity.
  - reflexivity.
Qed.

Lemma notAnyOfMember_composite (strings : list string) (member : Pattern) :
  isAtomic member = false ->
  notAnyOfMember encodePattern strings member
  = Throw
      match member with
      | Str "" => ZeroLengthString
      | Str _ => StringNotSingleCodepoint
      | _ => NotSingleOrClassToken
      end.
Proof.
  destruct member as [s | | | | | | | | | | | | | | ]; try discriminate;
    try reflexivity.
  cbn [isAtomic]. intros Hs. destruct s as [ | c [ | c' rest]]; try discriminate;
    reflexivity.
Qed.

Lemma forOf_notAnyOfMember (members : list Pattern) :
  forall strings,
  forallb isAtomic members = true ->
  forOf (notAnyOfMember encodePattern) members strings
  = do parts <- mapM (fun member => encodePattern member false) members in
    OK (strings ++ parts).
Proof.
  induction members as [ | member rest IH]; intros strings Hall.
  - cbn [forOf mapM bind]. now rewrite app_nil_r.
  - cbn [forallb] in Hall. apply andb_true_iff in Hall as [Hmember Hrest].
    cbn [forOf mapM]. rewrite (notAnyOfMember_atomic _ _ Hmember).
    destruct (encodePattern member false) as [encoded | e]; [ | reflexivity ].
    cbn [bind]. rewrite (IH _ Hrest).
    destruct (mapM _ rest) as [parts | e]; [ | reflexivity ].
    cbn [bind]. now rewrite <- app_assoc.
Qed.

Lemma forOf_notAnyOfMember_composite (members : list Pattern) :
  forall strings,
  forallb isAtomic members = false ->
  exists e, forOf (notAnyOfMember encodePattern) members strings = Throw e.
Proof.
  induction members as [ | member rest IH]; intros strings Hsome;
    [ discriminate | ].
  cbn [forallb] in Hsome. cbn [forOf].
  destruct (isAtomic member) eqn:Hmember.
  - rewrite (notAnyOfMember_atomic _ _ Hmember).
    destruct (encodePattern member false) as [encoded | e]; [ | now exists e ].
    cbn [bind]. apply IH. exact Hsome.
  - rewrite (notAnyOfMember_composite _ _ Hmember). cbn [bind]. eauto.
Qed.

Lemma encodePattern_NotAnyOf_atomic (members : list Pattern) (w : bool) :
  forallb isAtomic members = true ->
  exists parts,
    mapM (fun member => encodePattern member false) members = OK parts
    /\ encodePattern (NotAnyOf members) w
       = OK (match members with
             | [] => ""
             | _ => "[^" +:+ join "" parts +:+ "]"
             end).
Proof.
  intros Hall.
  assert (Hparts : exists parts,
            mapM (fun member => encodePattern member false) members = OK parts).
  { apply mapM_OK_iff. apply List.Forall_forall. intros member Hin.
    apply isAtomic_encodes.
    rewrite forallb_forall in Hall. now apply Hall. }
  destruct Hparts as [parts Hparts]. exists parts. split; [ exact Hparts | ].
  cbn [encodePattern]. unfold encodePattern_notAnyOf.
  destruct members as [ | member rest]; [ reflexivity | ].
  cbn [length Nat.eqb]. rewrite (forOf_notAnyOfMember _ _ Hall), Hparts.
  reflexivity.
Qed.

Lemma encodePattern_NotAnyOf_composite (members : list Pattern) (w : bool) :
  forallb isAtomic members = false ->
  exists e, encodePattern (NotAnyOf members) w = Throw e.
Proof.
  intros Hsome. cbn [encodePattern]. unfold encodePattern_notAnyOf.
  destruct members as [ | member rest]; [ discriminate | ].
  cbn [length Nat.eqb].
  destruct (forOf_notAnyOfMember_composite (member :: rest) [] Hsome) as [e He].
  rewrite He. now exists e.
Qed.

(** X5. A negated class is encoded exactly when each of its members is
    a literal of one character or a class token.  It is then the
    unwrapped encodings of the members, in their order and as they are
    (no hyphen is escaped here), between [[^] and [\]]; without members
    it is the empty string. *)
Theorem negated_class_encoding (members : list Pattern) (w : bool) :
  ((exists s, encodePattern (NotAnyOf members) w = OK s)
   <-> forallb isAtomic members = true)
  /\ (forallb isAtomic members = true ->
      exists parts,
        mapM (fun member => encodePattern member false) members = OK parts
        /\ encodePattern (NotAnyOf members) w
           = OK (match members with
                 | [] => ""
                 | _ => "[^" +:+ join "" parts +:+ "]"
                 end)).
Proof.
  split; [ | apply encodePattern_NotAnyOf_atomic ].
  split.
  - intros [s Hs]. destruct (forallb isAtomic members) eqn:Hall;
      [ reflexivity | ].
    destruct (encodePattern_NotAnyOf_composite members w Hall) as [e He].
    congruence.
  - intros Hall.
    destruct (encodePattern_NotAnyOf_atomic members w Hall) as (parts & _ & H).
    eauto.
Qed.

Lemma negated_class_encoding_witness :
  forallb isAtomic [Str "a"; Str "-"; SpecialToken "charRange" "0-9"] = true
  /\ encodePattern (NotAnyOf [Str "a"; Str "-"; SpecialToken "charRange" "0-9"])
       true
     = OK "[^a-0-9]".
Proof.
  split; [ reflexivity | ].
  destruct (proj2 (negated_class_encoding
                     [Str "a"; Str "-"; SpecialToken "charRange" "0-9"] true)
              eq_refl) as (parts & Hparts & Hencoded).
  injection Hparts as <-. exact Hencoded.
Defined.

(* ------------------------------------------------------------------ *)
(** ** Disjunctions that hold the empty literal *)

Lemma isSingleCharPattern_Throw (pattern : Pattern) (e : Error) :
  isSingleCharPattern pattern = Throw e -> e = ZeroLengthString.
Proof.
  destruct pattern as [s | | | | | | | | | | | | | | ]; try discriminate.
  destruct s; cbn; congruence.
Qed.

Lemma groupMember_Throw (groups : list (list Pattern)) (x : Pattern) (e : Error) :
  groupMember isSingleCharPattern groups x = Throw e -> e = ZeroLengthString.
Proof.
  unfold groupMember.
  destruct (List.last groups []) as [ | first others]; [ discriminate | ].
  destruct (isSingleCharPattern x) as [a | e1] eqn:Hx.
  - destruct (isSingleCharPattern first) as [b | e2] eqn:Hfirst.
    + cbn [bind]. destruct (Bool.eqb a b); discriminate.
    + cbn [bind]. intros [= <-]. exact (isSingleCharPattern_Throw _ _ Hfirst).
  - cbn [bind]. intros [= <-]. exact (isSingleCharPattern_Throw _ _ Hx).
Qed.

Lemma forOf_groupMember_Throw (members : list Pattern) :
  forall groups e,
  forOf (groupMember isSingleCharPattern) members groups = Throw e ->
  e = ZeroLengthString.
Proof.
  induction members as [ | x rest IH]; intros groups e; [ discriminate | ].
  cbn [forOf].
  destruct (groupMember isSingleCharPattern groups x) as [groups' | e'] eqn:Hstep.
  - cbn [bind]. apply IH.
  - cbn [bind]. intros [= <-]. exact (groupMember_Throw _ _ _ Hstep).
Qed.

Lemma groupMember_last {A : Type} (isSingle : A -> result bool)
  (groups groups' : list (list A)) (x : A) :
  groupMember isSingle groups x = OK groups' -> List.last groups' [] <> [].
Proof.
  unfold groupMember.
  assert (Hpush : forall g : list A, g ++ [x] <> []).
  { intros g Hg. now apply app_eq_nil in Hg as [_ Hg]. }
  destruct (List.last groups []) as [ | first others].
  - cbn [bind]. intros [= <-]. rewrite List.last_last. apply (Hpush []).
  - destruct (isSingle x) as [a | e]; [ | discriminate ].
    destruct (isSingle first) as [b | e]; [ | discriminate ].
    cbn [bind]. destruct (Bool.eqb a b); intros [= <-];
      rewrite List.last_last; [ apply (Hpush (first :: others)) | discriminate ].
Qed.

(** Once the last group holds a member, the grouping loop does not get
    past an empty literal. *)
Lemma forOf_groupMember_empty_literal (members : list Pattern) :
  forall groups,
  In (Str "") members -> List.last groups [] <> [] ->
  forOf (groupMember isSingleCharPattern) members groups
  = Throw ZeroLengthString.
Proof.
  induction members as [ | x rest IH]; intros groups Hin Hlast;
    [ contradiction | ].
  assert (Hthrows : exists e,
            forOf (groupMember isSingleCharPattern) (x :: rest) groups = Throw e).
  { cbn [forOf].
    destruct (groupMember isSingleCharPattern groups x) as [groups' | e] eqn:Hstep;
      [ | now exists e ].
    cbn [bind]. destruct Hin as [-> | Hin].
    - exfalso. unfold groupMember in Hstep.
      destruct (List.last groups []) as [ | first others]; [ congruence | ].
      discriminate Hstep.
    - exists ZeroLengthString. apply IH; [ exact Hin | ].
      exact (groupMember_last _ _ _ _ Hstep). }
  destruct Hthrows as [e He]. rewrite He. f_equal.
  exact (forOf_groupMember_Throw _ _ _ He).
Qed.

Lemma encodePattern_AnyOf_empty_literal (members : list Pattern) (w : bool) :
  In (Str "") members ->
  encodePattern (AnyOf members) w = Throw ZeroLengthString.
Proof.
  intros Hin. rewrite encodePattern_AnyOf. unfold encodePattern_anyOf.
  destruct members as [ | first rest]; [ contradiction | ].
  cbn [length Nat.eqb forOf].
  change (groupMember isSingleCharPattern [[]] first) with (OK [[first]]).
  cbn [bind].
  destruct rest as [ | second rest'].
  - destruct Hin as [-> | []]. reflexivity.
  - destruct Hin as [-> | Hin].
    + cbn [forOf].
      assert (Hstep : groupMember isSingleCharPattern [[Str ""]] second
                      = Throw ZeroLengthString).
      { unfold groupMember. cbn [List.last].
        destruct (isSingleCharPattern second) as [a | e] eqn:Hsecond;
          [ reflexivity | ].
        cbn [bind]. f_equal. exact (isSingleCharPattern_Throw _ _ Hsecond). }
      now rewrite Hstep.
    + rewrite (forOf_groupMember_empty_literal (second :: rest') [[first]] Hin);
        [ reflexivity | discriminate ].
Qed.

(** X6. A disjunction that has the empty string literal among its
    members is never encoded: whatever the other members are, and
    wherever the empty literal stands, the encoder throws the
    zero-length-string error. *)
Theorem encodePattern_anyOf_with_empty_literal (members : list Pattern)
  (w : bool) :
  In (Str "") members ->
  encodePattern (anyOf members) w = Throw ZeroLengthString.
Proof. apply encodePattern_AnyOf_empty_literal. Qed.

Lemma encodePattern_anyOf_with_empty_literal_witness :
  In (Str "") [Str "cat"; NotAnyOf [Str "dog"]; Str ""]
  /\ encodePattern (anyOf [Str "cat"; NotAnyOf [Str "dog"]; Str ""]) true
     = Throw ZeroLengthString.
Proof.
  assert (Hin : In (Str "") [Str "cat"; NotAnyOf [Str "dog"]; Str ""]).
  { right. right. left. reflexivity. }
  split; [ exact Hin | ].
  exact (encodePattern_anyOf_with_empty_literal _ true Hin).
Defined.

(* ------------------------------------------------------------------ *)
(** ** When the encoder throws *)

Lemma bind_OK_iff {A B : Type} (c : result A) (k : A -> result B) :
  (forall a, exists b, k a = OK b) ->
  (exists b, bind c k = OK b) <-> (exists a, c = OK a).
Proof.
  intros Hk. destruct c as [a | e]; cbn [bind].
  - split; [ eauto | intros _; apply Hk ].
  - split; intros [x Hx]; discriminate.
Qed.

Lemma isEmptyLiteral_false (pattern : Pattern) :
  isEmptyLiteral pattern = false <-> pattern <> Str "".
Proof.
  destruct pattern as [s | | | | | | | | | | | | | | ]; cbn [isEmptyLiteral];
    try (split; [ discriminate | reflexivity ]).
  destruct (String.eqb_spec s "") as [-> | Hs]; split; congruence.
Qed.

(** Away from the empty literal, a disjunction is encoded as its
    reference says. *)
Lemma encodePattern_AnyOf_reference (members : list Pattern) (w : bool) :
  List.Forall (fun member => member <> Str "") members ->
  encodePattern (AnyOf members) w = anyOfReference members.
Proof.
  intros Hmembers. rewrite encodePattern_AnyOf.
  unfold encodePattern_anyOf, anyOfReference.
  destruct members as [ | x rest]; [ reflexivity | ].
  cbn [length Nat.eqb].
  rewrite (forOf_groupMember isSingleCharPattern isAtomic x rest).
  - cbn [bind]. rewrite forOf_encodeGroup.
    + destruct (mapM runOutput _) as [outputs | e]; [ | reflexivity ].
      cbn [bind app]. destruct (concat outputs); reflexivity.
    + apply List.Forall_concat. now rewrite runs_concat.
  - revert Hmembers. apply List.Forall_impl.
    exact isSingleCharPattern_isAtomic.
Qed.

Lemma runOutput_OK (run : list Pattern) :
  List.Forall (fun member => forall w, exists s, encodePattern member w = OK s)
    run ->
  exists output, runOutput run = OK output.
Proof.
  intros Hrun. unfold runOutput.
  destruct run as [ | first others]; [ now exists [] | ].
  destruct (isAtomic first).
  - unfold atomicRunOutput.
    assert (Hparts : exists parts,
              mapM (fun member => encodePattern member false) (first :: others)
              = OK parts).
    { apply mapM_OK_iff. revert Hrun. apply List.Forall_impl. auto. }
    destruct Hparts as [parts ->]. cbn [bind].
    destruct (List.filter _ _); eauto.
  - unfold compositeRunOutput.
    assert (Hparts : exists parts,
              mapM (fun member => encodePattern member true) (first :: others)
              = OK parts).
    { apply mapM_OK_iff. revert Hrun. apply List.Forall_impl. auto. }
    destruct Hparts as [parts ->]. cbn [bind]. eauto.
Qed.

Lemma runOutput_OK_inv (run : list Pattern) (output : list string) :
  runOutput run = OK output ->
  List.Forall (fun member => exists w s, encodePattern member w = OK s) run.
Proof.
  unfold runOutput. destruct run as [ | first others]; [ constructor | ].
  destruct (isAtomic first); intros Hrun.
  - unfold atomicRunOutput in Hrun.
    destruct (mapM _ (first :: others)) as [parts | e] eqn:Hparts;
      [ | discriminate ].
    assert (Hall : exists parts,
              mapM (fun member => encodePattern member false) (first :: others)
              = OK parts) by eauto.
    apply mapM_OK_iff in Hall. revert Hall. apply List.Forall_impl.
    intros member [s Hs]. eauto.
  - unfold compositeRunOutput in Hrun.
    destruct (mapM _ (first :: others)) as [parts | e] eqn:Hparts;
      [ | discriminate ].
    assert (Hall : exists parts,
              mapM (fun member => encodePattern member true) (first :: others)
              = OK parts) by eauto.
    apply mapM_OK_iff in Hall. revert Hall. apply List.Forall_impl.
    intros member [s Hs]. eauto.
Qed.

Lemma anyOfReference_OK (members : list Pattern) :
  List.Forall (fun member => forall w, exists s, encodePattern member w = OK s)
    members ->
  exists s, anyOfReference members = OK s.
Proof.
  intros Hmembers. unfold anyOfReference.
  assert (Houtputs : exists outputs,
            mapM runOutput (runs isAtomic members) = OK outputs).
  { apply mapM_OK_iff.
    rewrite <- (runs_concat isAtomic members) in Hmembers.
    apply List.Forall_concat in Hmembers.
    revert Hmembers. apply List.Forall_impl. exact runOutput_OK. }
  destruct Houtputs as [outputs ->]. cbn [bind].
  destruct (concat outputs); eauto.
Qed.

Lemma anyOfReference_OK_inv (members : list Pattern) (s : string) :
  anyOfReference members = OK s ->
  List.Forall (fun member => exists w s, encodePattern member w = OK s) members.
Proof.
  unfold anyOfReference. intros Hs.
  destruct (mapM runOutput (runs isAtomic members)) as [outputs | e] eqn:Houtputs;
    [ | discriminate ].
  assert (Hall : exists outputs,
            mapM runOutput (runs isAtomic members) = OK outputs) by eauto.
  apply mapM_OK_iff in Hall.
  rewrite <- (runs_concat isAtomic members). apply List.Forall_concat.
  revert Hall. apply List.Forall_impl.
  intros run [output Hrun]. exact (runOutput_OK_inv run output Hrun).
Qed.

Ltac wrapper_case IH :=
  let w := fresh "w" in
  intros w; cbn [encodePattern encodable];
  unfold encodePattern_possibly, encodePattern_zeroOrMore,
    encodePattern_oneOrMore, encodePattern_repeated,
    encodePattern_precededBy, encodePattern_notPrecededBy,
    encodePattern_followedBy, encodePattern_notFollowedBy,
    encodePattern_capture;
  rewrite <- (IH true); apply bind_OK_iff;
  intros; repeat match goal with
                 | |- context [if ?b then _ else _] => destruct b
                 | |- context [match ?n with Some _ => _ | None => _ end] =>
                     destruct n
                 end; eauto.

Lemma encodePattern_OK_encodable (pattern : Pattern) :
  forall w,
  (exists s, encodePattern pattern w = OK s) <-> encodable pattern = true.
Proof.
  induction pattern using Pattern_induction;
    try (wrapper_case IHpattern).
  - intros w. cbn [encodePattern encodable]. split; eauto.
  - (* Arr *)
    intros w. cbn [encodePattern encodable].
    rewrite bind_OK_iff by eauto. rewrite mapM_OK_iff, forallb_forall.
    rewrite List.Forall_forall in H |- *.
    split; intros Hall x Hx; apply (H x Hx true); auto.
  - intros w. cbn [encodePattern encodable]. split; eauto.
  - (* AnyOf *)
    intros w. cbn [encodable]. rewrite forallb_forall.
    rewrite List.Forall_forall in H. split.
    + intros [s Hs] member Hin.
      assert (Hne : List.Forall (fun m => m <> Str "") members).
      { apply List.Forall_forall. intros m Hm ->.
        rewrite (encodePattern_AnyOf_empty_literal members w Hm) in Hs.
        discriminate. }
      rewrite (encodePattern_AnyOf_reference members w Hne) in Hs.
      apply anyOfReference_OK_inv in Hs.
      rewrite List.Forall_forall in Hs, Hne.
      destruct (Hs member Hin) as (w' & s' & Hmember).
      apply andb_true_iff. split.
      * apply negb_true_iff, isEmptyLiteral_false. now apply Hne.
      * apply (H member Hin w'). eauto.
    + intros Hall.
      assert (Hne : List.Forall (fun m => m <> Str "") members).
      { apply List.Forall_forall. intros m Hm.
        specialize (Hall m Hm). apply andb_true_iff in Hall as [Hm' _].
        now apply isEmptyLiteral_false, negb_true_iff. }
      rewrite (encodePattern_AnyOf_reference members w Hne).
      apply anyOfReference_OK. apply List.Forall_forall. intros m Hm w'.
      apply (H m Hm w').
      specialize (Hall m Hm). now apply andb_true_iff in Hall as [_ Hm'].
  - (* NotAnyOf *)
    intros w. cbn [encodable]. split.
    + intros [s Hs]. destruct (forallb isAtomic members) eqn:Hall;
        [ reflexivity | ].
      destruct (encodePattern_NotAnyOf_composite members w Hall) as [e He].
      congruence.
    + intros Hall.
      destruct (encodePattern_NotAnyOf_atomic members w Hall) as (parts & _ & Hs).
      eauto.
  - intros w. cbn [encodePattern encodable].
    destruct reference; cbn [encodePattern_sameAs]; split; eauto.
Qed.

(** X7. The encoder returns a string exactly on the patterns in which
    every negated class has only atomic members and no disjunction has
    the empty string literal as a member; on every other pattern it
    throws. *)
Theorem encodePattern_total_on_encodable (pattern : Pattern) (w : bool) :
  (encodable pattern = true -> exists s, encodePattern pattern w = OK s)
  /\ (encodable pattern = false -> exists e, encodePattern pattern w = Throw e).
Proof.
  split.
  - apply encodePattern_OK_encodable.
  - intros Hnot. destruct (encodePattern pattern w) as [s | e] eqn:Hs;
      [ | now exists e ].
    assert (Hyes : encodable pattern = true)
      by (apply (encodePattern_OK_encodable pattern w); eauto).
    congruence.
Qed.

Lemma encodePattern_total_on_encodable_witness :
  (encodable (Arr [anyOf [Str "a"; Str "cat"]; NotAnyOf [Str "x"]]) = true
   /\ exists s,
        encodePattern (Arr [anyOf [Str "a"; Str "cat"]; NotAnyOf [Str "x"]]) true
        = OK s)
  /\ (encodable (Capture None (NotAnyOf [Str "cat"])) = false
      /\ exists e,
           encodePattern (Capture None (NotAnyOf [Str "cat"])) true = Throw e).
Proof.
  split; (split; [ reflexivity | ]).
  - apply (proj1 (encodePattern_total_on_encodable _ true)). reflexivity.
  - apply (proj2 (encodePattern_total_on_encodable _ true)). reflexivity.
Defined.

(* ------------------------------------------------------------------ *)
(** ** What the tables of the optionality analyzer do *)

Lemma allTrue_noLookups : allTrue noLookups.
Proof.
  split; [ constructor | ]. intros name flag. cbn.
  rewrite lookup_empty. discriminate.
Qed.

Lemma allTrue_recordCapture (name : option string) (st : Lookups) :
  allTrue st -> allTrue (recordCapture name true st).
Proof.
  intros [Hlist Hmap]. split.
  - cbn. apply List.Forall_app. split; [ exact Hlist | ].
    constructor; [ reflexivity | constructor ].
  - intros key flag. cbn.
    destruct name as [n | ]; [ | apply Hmap ].
    destruct (truthyName (Some n)); [ | apply Hmap ].
    destruct (decide (n = key)) as [-> | Hne].
    + rewrite lookup_insert_eq. congruence.
    + rewrite lookup_insert_ne by exact Hne. apply Hmap.
Qed.

Lemma allTrue_resolve (reference : string + number) (st : Lookups) (flag : bool) :
  allTrue st -> resolve reference st = OK flag -> flag = true.
Proof.
  intros [Hlist Hmap]. unfold resolve, arrayGet.
  destruct reference as [name | index].
  - destruct (namedCaptureGroupLookup st !! name) as [found | ] eqn:Hfound;
      [ | discriminate ].
    intros [= <-]. exact (Hmap name found Hfound).
  - destruct index as [z | | | ]; try discriminate.
    destruct (0 <=? z)%Z; [ | discriminate ].
    destruct (nth_error (captureGroupLookup st) (Z.to_nat z)) as [found | ] eqn:Hfound;
      [ | discriminate ].
    intros [= <-]. rewrite List.Forall_forall in Hlist.
    apply Hlist. exact (nth_error_In _ _ Hfound).
Qed.

(** As long as every recorded flag is [true], the answer of [isOptional]
    is the one the shape of the pattern gives, and a [true] answer leaves
    only [true] flags behind. *)
Lemma isOptional_shape (pattern : Pattern) :
  forall st flag st',
  allTrue st -> isOptional pattern st = OK (flag, st') ->
  flag = optionalByShape pattern /\ (flag = true -> allTrue st').
Proof.
  induction pattern using Pattern_induction; intros st flag st' Hst;
    cbn [isOptional optionalByShape];
    try (intros [= <- <-]; split; [ reflexivity | auto; discriminate ]);
    try (apply IHpattern; exact Hst).
  - (* Arr *)
    revert st Hst.
    induction H as [ | x rest Hx Hrest IH]; intros st Hst; cbn [allOptional forallb].
    + intros [= <- <-]. auto.
    + destruct (isOptional x st) as [[flag1 st1] | e] eqn:Hstep; [ | discriminate ].
      cbn [bind fst snd].
      destruct (Hx st flag1 st1 Hst Hstep) as [-> Hst1].
      destruct (optionalByShape x).
      * apply IH. now apply Hst1.
      * intros [= <- <-]. split; [ reflexivity | discriminate ].
  - (* AnyOf *)
    revert st Hst.
    induction H as [ | x rest Hx Hrest IH]; intros st Hst; cbn [allOptional forallb].
    + intros [= <- <-]. auto.
    + destruct (isOptional x st) as [[flag1 st1] | e] eqn:Hstep; [ | discriminate ].
      cbn [bind fst snd].
      destruct (Hx st flag1 st1 Hst Hstep) as [-> Hst1].
      destruct (optionalByShape x).
      * apply IH. now apply Hst1.
      * intros [= <- <-]. split; [ reflexivity | discriminate ].
  - (* Capture *)
    destruct (isOptional pattern st) as [[flag1 st1] | e] eqn:Hcontent;
      [ | discriminate ].
    cbn [bind fst snd]. intros [= <- <-].
    destruct (IHpattern st flag1 st1 Hst Hcontent) as [-> Hst1].
    split; [ reflexivity | ].
    intros Htrue. rewrite Htrue. apply allTrue_recordCapture. now apply Hst1.
  - (* SameAs *)
    destruct (resolve reference st) as [found | e] eqn:Hfound; [ | discriminate ].
    cbn [bind]. intros [= <- <-].
    rewrite (allTrue_resolve reference st found Hst Hfound). auto.
Qed.

(** X8. Whenever [isPatternOptional] returns, its answer is the one read
    off the shape of the pattern with every backreference counted as
    optional: the two tables decide whether the call throws, never what
    it answers. *)
Theorem isPatternOptional_answer (pattern : Pattern) (flag : bool) :
  isPatternOptional pattern = OK flag -> flag = optionalByShape pattern.
Proof.
  unfold isPatternOptional.
  destruct (isOptional pattern noLookups) as [[flag' st'] | e] eqn:Hrun;
    [ | discriminate ].
  cbn [bind fst]. intros [= <-].
  exact (proj1 (isOptional_shape pattern _ _ _ allTrue_noLookups Hrun)).
Qed.

Lemma isPatternOptional_answer_witness :
  isPatternOptional
    (Arr [captureAs "sign" (possibly (Str "-")); oneOrMore (SameAs (inl "sign"))])
  = OK true
  /\ true
     = optionalByShape
         (Arr [captureAs "sign" (possibly (Str "-"));
               oneOrMore (SameAs (inl "sign"))]).
Proof.
  split; [ reflexivity | ].
  apply isPatternOptional_answer. reflexivity.
Defined.

(** Without a backreference nothing in [isOptional] throws. *)
Lemma isOptional_noSameAs (pattern : Pattern) :
  noSameAs pattern = true ->
  forall st, exists flag st', isOptional pattern st = OK (flag, st').
Proof.
  induction pattern using Pattern_induction; cbn [noSameAs isOptional];
    intros Hno st; eauto; try discriminate.
  - (* Arr *)
    revert st. rewrite forallb_forall in Hno.
    induction H as [ | x rest Hx Hrest IH]; intros st; cbn [allOptional]; eauto.
    destruct (Hx (Hno x (or_introl eq_refl)) st) as (flag1 & st1 & ->).
    cbn [bind fst snd]. destruct flag1; eauto.
    apply IH. intros y Hy. apply Hno. now right.
  - (* AnyOf *)
    revert st. rewrite forallb_forall in Hno.
    induction H as [ | x rest Hx Hrest IH]; intros st; cbn [allOptional]; eauto.
    destruct (Hx (Hno x (or_introl eq_refl)) st) as (flag1 & st1 & ->).
    cbn [bind fst snd]. destruct flag1; eauto.
    apply IH. intros y Hy. apply Hno. now right.
  - (* Capture *)
    destruct (IHpattern Hno st) as (flag1 & st1 & ->). cbn [bind]. eauto.
Qed.

(** X9. On a pattern without any backreference [isPatternOptional] never
    throws, and it answers what the shape of the pattern says. *)
Theorem isPatternOptional_without_backreference (pattern : Pattern) :
  noSameAs pattern = true ->
  isPatternOptional pattern = OK (optionalByShape pattern).
Proof.
  intros Hno.
  destruct (isOptional_noSameAs pattern Hno noLookups) as (flag & st' & Hrun).
  unfold isPatternOptional. rewrite Hrun. cbn [bind fst]. f_equal.
  exact (proj1 (isOptional_shape pattern _ _ _ allTrue_noLookups Hrun)).
Qed.

Lemma isPatternOptional_without_backreference_witness :
  noSameAs (Arr [possibly (Str "+"); anyOf [zeroOrMore (Str "a"); Arr []]]) = true
  /\ isPatternOptional
       (Arr [possibly (Str "+"); anyOf [zeroOrMore (Str "a"); Arr []]])
     = OK true.
Proof.
  split; [ reflexivity | ].
  exact (isPatternOptional_without_backreference
           (Arr [possibly (Str "+"); anyOf [zeroOrMore (Str "a"); Arr []]])
           eq_refl).
Defined.

Lemma recordCapture_grows (name : option string) (flag : bool) (st : Lookups) :
  captureGroupLookup (recordCapture name flag st)
  = captureGroupLookup st ++ [flag]
  /\ forall key,
       is_Some (namedCaptureGroupLookup st !! key) ->
       is_Some (namedCaptureGroupLookup (recordCapture name flag st) !! key).
Proof.
  split; [ reflexivity | ]. intros key Hkey. cbn.
  destruct name as [n | ]; [ | exact Hkey ].
  destruct (truthyName (Some n)); [ | exact Hkey ].
  destruct (decide (n = key)) as [-> | Hne].
  - rewrite lookup_insert_eq. eauto.
  - now rewrite lookup_insert_ne.
Qed.

(** X10. A traversal only adds to the tables: the flags recorded before
    a call of [isOptional] are still there after it, at the same
    positions, and a name that was recorded stays recorded. *)
Theorem isOptional_tables_grow (pattern : Pattern) :
  forall st flag st',
  isOptional pattern st = OK (flag, st') ->
  (exists added,
     captureGroupLookup st' = captureGroupLookup st ++ added)
  /\ forall name,
       is_Some (namedCaptureGroupLookup st !! name) ->
       is_Some (namedCaptureGroupLookup st' !! name).
Proof.
  assert (Hsame : forall st : Lookups,
            (exists added, captureGroupLookup st = captureGroupLookup st ++ added)
            /\ forall name,
                 is_Some (namedCaptureGroupLookup st !! name) ->
                 is_Some (namedCaptureGroupLookup st !! name)).
  { intros st. split; [ exists []; now rewrite app_nil_r | auto ]. }
  assert (Hloop : forall elements,
            List.Forall
              (fun pattern =>
                 forall st flag st',
                 isOptional pattern st = OK (flag, st') ->
                 (exists added,
                    captureGroupLookup st' = captureGroupLookup st ++ added)
                 /\ forall name,
                      is_Some (namedCaptureGroupLookup st !! name) ->
                      is_Some (namedCaptureGroupLookup st' !! name))
              elements ->
            forall st flag st',
            allOptional isOptional elements st = OK (flag, st') ->
            (exists added,
               captureGroupLookup st' = captureGroupLookup st ++ added)
            /\ forall name,
                 is_Some (namedCaptureGroupLookup st !! name) ->
                 is_Some (namedCaptureGroupLookup st' !! name)).
  { intros elements Hall.
    induction Hall as [ | x rest Hx Hrest IH]; intros st flag st';
      cbn [allOptional].
    - intros [= <- <-]. apply Hsame.
    - destruct (isOptional x st) as [[flag1 st1] | e] eqn:Hstep; [ | discriminate ].
      cbn [bind fst snd].
      destruct (Hx st flag1 st1 Hstep) as [[added1 Hadded1] Hnames1].
      destruct flag1.
      + intros Hrun. destruct (IH st1 flag st' Hrun) as [[added2 Hadded2] Hnames2].
        split; [ | auto ].
        exists (added1 ++ added2). now rewrite Hadded2, Hadded1, app_assoc.
      + intros [= <- <-]. split; [ now exists added1 | exact Hnames1 ]. }
  induction pattern using Pattern_induction; intros st flag st';
    cbn [isOptional];
    try (intros [= <- <-]; apply Hsame);
    try (apply IHpattern);
    try (apply Hloop; assumption).
  - (* Capture *)
    destruct (isOptional pattern st) as [[flag1 st1] | e] eqn:Hcontent;
      [ | discriminate ].
    cbn [bind fst snd]. intros [= <- <-].
    destruct (IHpattern st flag1 st1 Hcontent) as [[added Hadded] Hnames].
    destruct (recordCapture_grows name flag1 st1) as [Hlist Hmap].
    split.
    + exists (added ++ [flag1]). now rewrite Hlist, Hadded, app_assoc.
    + intros key Hkey. apply Hmap, Hnames, Hkey.
  - (* SameAs *)
    destruct (resolve reference st); [ | discriminate ].
    cbn [bind]. intros [= <- <-]. apply Hsame.
Qed.

Lemma isOptional_tables_grow_witness :
  isOptional (Arr [captureAs "b" (zeroOrMore (Str "b")); capture (Arr [Str "c"])])
    {| captureGroupLookup := [true];
       namedCaptureGroupLookup := <["a" := true]> ∅ |}
  = OK (false,
        {| captureGroupLookup := [true; true; false];
           namedCaptureGroupLookup := <["b" := true]> (<["a" := true]> ∅) |})
  /\ exists added, [true; true; false] = [true] ++ added.
Proof.
  split; [ reflexivity | ].
  exact (proj1 (isOptional_tables_grow
                  (Arr [captureAs "b" (zeroOrMore (Str "b"));
                        capture (Arr [Str "c"])])
                  {| captureGroupLookup := [true];
                     namedCaptureGroupLookup := <["a" := true]> ∅ |}
                  false
                  {| captureGroupLookup := [true; true; false];
                     namedCaptureGroupLookup :=
                       <["b" := true]> (<["a" := true]> ∅) |}
                  eq_refl)).
Defined.

(** X11. A capture with a non-empty name, directly followed by the
    backreference to that name, is as optional as the captured content:
    the reference is resolved, whatever the tables held before. *)
Theorem isOptional_capture_then_reference (name : string) (content : Pattern)
  (st st1 : Lookups) (flag : bool) :
  name <> "" ->
  isOptional content st = OK (flag, st1) ->
  isOptional (Arr [captureAs name content; SameAs (inl name)]) st
  = OK (flag, recordCapture (Some name) flag st1).
Proof.
  intros Hname Hcontent.
  cbn [isOptional allOptional captureAs]. rewrite Hcontent. cbn [bind fst snd].
  destruct flag; [ | reflexivity ].
  unfold resolve. cbn [recordCapture namedCaptureGroupLookup].
  assert (Htruthy : truthyName (Some name) = true).
  { destruct name; [ congruence | reflexivity ]. }
  rewrite Htruthy, lookup_insert_eq. reflexivity.
Qed.

Lemma isOptional_capture_then_reference_witness :
  "year" <> ""
  /\ isOptional (possibly (Str "1")) noLookups = OK (true, noLookups)
  /\ isOptional (Arr [captureAs "year" (possibly (Str "1")); SameAs (inl "year")])
       noLookups
     = OK (true, recordCapture (Some "year") true noLookups).
Proof.
  assert (Hname : "year" <> "") by discriminate.
  split; [ exact Hname | split; [ reflexivity | ] ].
  exact (isOptional_capture_then_reference "year" (possibly (Str "1"))
           noLookups noLookups true Hname eq_refl).
Defined.

(* ------------------------------------------------------------------ *)
(** ** The validators of the constructors *)

Lemma toInt32_range (x : number) : (- 2 ^ 31 <= toInt32 x < 2 ^ 31)%Z.
Proof.
  destruct x as [z | | | ]; cbn [toInt32]; try lia.
  pose proof (Z.mod_pos_bound (z + 2 ^ 31) (2 ^ 32) ltac:(lia)). lia.
Qed.

(** X12. [sameAs] accepts a name exactly when it is not empty, and a
    number exactly when it is an integer from 1 to 99; what it builds is
    the node that holds the reference as given. *)
Theorem sameAs_accepts (reference : string + number) :
  ((exists node, sameAs reference = OK node)
   <-> match reference with
       | inl name => name <> ""
       | inr (Int z) => (1 <= z <= 99)%Z
       | inr _ => False
       end)
  /\ forall node, sameAs reference = OK node -> node = SameAs reference.
Proof.
  split.
  - destruct reference as [name | [z | | | ]]; cbn [sameAs].
    + destruct name as [ | c rest]; cbn; split;
        try congruence; eauto; intros [node Hnode]; discriminate.
    + unfold numGt, numLt, bitor0, strictEq.
      destruct (Z.ltb_spec z 1), (Z.ltb_spec 99 z); cbn [orb];
        try (split; [ intros [node Hnode]; discriminate | lia ]).
      rewrite toInt32_small by lia. rewrite Z.eqb_refl. cbn [negb].
      split; [ lia | eauto ].
    + split; [ intros [node Hnode]; discriminate | contradiction ].
    + split; [ intros [node Hnode]; discriminate | contradiction ].
    + split; [ intros [node Hnode]; discriminate | contradiction ].
  - intros node. unfold sameAs.
    destruct reference as [name | index].
    + destruct (String.length name =? 0)%nat; congruence.
    + destruct (numLt index (Int 1) || numGt index (Int 99)); [ discriminate | ].
      destruct (negb (strictEq index (bitor0 index))); congruence.
Qed.

(** X13. Every [Repeated] node that the constructors build holds two
    signed 32-bit integers as its counts, never [Infinity] or [NaN], and
    keeps the content as given; the plain form is greedy and the other
    one is not. *)
Theorem repeated_counts_are_int32 (pattern node : Pattern) :
  (forall countOrRange,
     repeated countOrRange pattern = OK node ->
     exists minCount maxCount,
       node = Repeated pattern (Int minCount) (Int maxCount) true
       /\ (- 2 ^ 31 <= minCount < 2 ^ 31)%Z
       /\ (- 2 ^ 31 <= maxCount < 2 ^ 31)%Z)
  /\ (forall range,
        repeatedNonGreedy pattern range = OK node ->
        exists minCount maxCount,
          node = Repeated pattern (Int minCount) (Int maxCount) false
          /\ (- 2 ^ 31 <= minCount < 2 ^ 31)%Z
          /\ (- 2 ^ 31 <= maxCount < 2 ^ 31)%Z).
Proof.
  split.
  - intros countOrRange. unfold repeated.
    destruct countOrRange as [count | range].
    + cbn [bind fst snd]. intros [= <-].
      exists (toInt32 count), (toInt32 count).
      split; [ reflexivity | split; apply toInt32_range ].
    + destruct (badRangeLength range); [ discriminate | ].
      cbn [bind fst snd]. intros [= <-].
      exists (toInt32 (rangeMin range)), (toInt32 (rangeMax range)).
      split; [ reflexivity | split; apply toInt32_range ].
  - intros range. unfold repeatedNonGreedy.
    destruct (badRangeLength range); [ discriminate | ]. intros [= <-].
    exists (toInt32 (rangeMin range)), (toInt32 (rangeMax range)).
    split; [ reflexivity | split; apply toInt32_range ].
Qed.

Lemma repeated_counts_are_int32_witness :
  repeated (inr [Int 4294967298; Infinity]) (Str "a")
  = OK (Repeated (Str "a") (Int 2) (Int 0) true)
  /\ exists minCount maxCount,
       Repeated (Str "a") (Int 2) (Int 0) true
       = Repeated (Str "a") (Int minCount) (Int maxCount) true
       /\ (- 2 ^ 31 <= minCount < 2 ^ 31)%Z
       /\ (- 2 ^ 31 <= maxCount < 2 ^ 31)%Z.
Proof.
  split; [ reflexivity | ].
  exact (proj1 (repeated_counts_are_int32 (Str "a")
                  (Repeated (Str "a") (Int 2) (Int 0) true))
           (inr [Int 4294967298; Infinity]) eq_refl).
Defined.

(** X14. With counts in the signed 32-bit range and a content that
    encodes to a non-empty string, [repeated(n, content)] encodes to the
    grouped content followed by [{n}], and [repeated([min, max], content)]
    to the grouped content followed by [{min,max}], or by [{min}] when the
    two counts are equal; the content is grouped even when it is
    atomic. *)
Theorem repeated_encoding (content : Pattern) (contentString : string)
  (w : bool) :
  encodePattern content true = OK contentString ->
  nonEmpty contentString = true ->
  (forall n,
     (- 2 ^ 31 <= n < 2 ^ 31)%Z ->
     (do node <- repeated (inl (Int n)) content in encodePattern node w)
     = OK ("(?:" +:+ contentString +:+ "){" +:+ decimal n +:+ "}"))
  /\ (forall minCount maxCount,
        (- 2 ^ 31 <= minCount < 2 ^ 31)%Z ->
        (- 2 ^ 31 <= maxCount < 2 ^ 31)%Z ->
        (do node <- repeated (inr [Int minCount; Int maxCount]) content in
         encodePattern node w)
        = OK ("(?:" +:+ contentString +:+ ")"
              +:+ (if (minCount =? maxCount)%Z
                   then "{" +:+ decimal minCount +:+ "}"
                   else "{" +:+ decimal minCount +:+ ","
                        +:+ decimal maxCount +:+ "}"))).
Proof.
  intros Hcontent Hne.
  assert (Hencode : forall a b,
            encodePattern (Repeated content (Int a) (Int b) true) w
            = OK ("(?:" +:+ contentString +:+ ")"
                  +:+ (if (a =? b)%Z then "{" +:+ decimal a +:+ "}"
                       else "{" +:+ decimal a +:+ "," +:+ decimal b +:+ "}"))).
  { intros a b. cbn [encodePattern]. unfold encodePattern_repeated.
    rewrite Hcontent. cbn [bind]. rewrite nonEmpty_eqb, Hne. cbn [negb].
    unfold countString, strictEq. cbn [greedySuffix numberToString].
    destruct (a =? b)%Z; now rewrite append_empty_r. }
  split.
  - intros n Hn. unfold repeated, bitor0. cbn [bind fst snd].
    rewrite toInt32_small by exact Hn. rewrite Hencode, Z.eqb_refl.
    reflexivity.
  - intros minCount maxCount Hmin Hmax. unfold repeated, bitor0.
    cbn [badRangeLength length Nat.eqb Nat.ltb Nat.leb orb bind fst snd
         rangeMin rangeMax nth_error].
    rewrite !toInt32_small by assumption. apply Hencode.
Qed.

Lemma repeated_encoding_witness :
  encodePattern (SpecialToken "charRange" "0-9") true = OK "[0-9]"
  /\ nonEmpty "[0-9]" = true
  /\ (do node <- repeated (inl (Int 3)) (SpecialToken "charRange" "0-9") in
      encodePattern node true)
     = OK "(?:[0-9]){3}"
  /\ (do node <- repeated (inr [Int 1; Int 3]) (SpecialToken "charRange" "0-9") in
      encodePattern node true)
     = OK "(?:[0-9]){1,3}".
Proof.
  split; [ reflexivity | split; [ reflexivity | ] ].
  destruct (repeated_encoding (SpecialToken "charRange" "0-9") "[0-9]" true
              eq_refl eq_refl) as [Hcount Hrange].
  split.
  - apply (Hcount 3%Z). lia.
  - apply (Hrange 1%Z 3%Z); lia.
Defined.

(* ------------------------------------------------------------------ *)
(** ** Codepoints given as numbers *)

Lemma hexPrefix_digits_acc (d : Hexadecimal.uint) :
  forall acc : positive,
  hexPrefix (Some (Z.pos acc)) (HexadecimalString.NilEmpty.string_of_uint d)
  = Some (Z.pos (Pos.of_hex_uint_acc d acc)).
Proof.
  induction d; intros acc;
    cbn [HexadecimalString.NilEmpty.string_of_uint Pos.of_hex_uint_acc hexPrefix];
    try reflexivity;
    match goal with
    | |- context [hexDigit ?c] =>
        let v := eval vm_compute in (hexDigit c) in
        change (hexDigit c) with v
    end;
    cbv beta iota;
    match goal with
    | |- hexPrefix (Some ?a) _ = Some (Z.pos (Pos.of_hex_uint_acc _ ?b)) =>
        replace a with (Z.pos b) by lia
    end;
    apply IHd.
Qed.

Lemma hexPrefix_digits (d : Hexadecimal.uint) :
  hexPrefix (Some 0%Z) (HexadecimalString.NilEmpty.string_of_uint d)
  = Some (Z.of_N (Pos.of_hex_uint d)).
Proof.
  induction d;
    cbn [HexadecimalString.NilEmpty.string_of_uint Pos.of_hex_uint hexPrefix];
    try reflexivity;
    match goal with
    | |- context [hexDigit ?c] =>
        let v := eval vm_compute in (hexDigit c) in
        change (hexDigit c) with v
    end;
    cbv beta iota;
    first [ exact IHd | apply hexPrefix_digits_acc ].
Qed.

Lemma hexPrefix_None_digits (d : Hexadecimal.uint) :
  d <> Hexadecimal.Nil ->
  hexPrefix None (HexadecimalString.NilEmpty.string_of_uint d)
  = Some (Z.of_N (Pos.of_hex_uint d)).
Proof.
  intros Hd. rewrite <- hexPrefix_digits.
  destruct d; [ congruence | .. ]; reflexivity.
Qed.

(** On a string of hexadecimal digits [parseInt] skips nothing: there is
    no white space, no sign and no [0x] in front. *)
Lemma parseInt16_digits (d : Hexadecimal.uint) :
  d <> Hexadecimal.Nil ->
  parseInt16 (HexadecimalString.NilEmpty.string_of_uint d)
  = Int (Z.of_N (Pos.of_hex_uint d)).
Proof.
  intros Hd.
  assert (Hparse :
    parseInt16 (HexadecimalString.NilEmpty.string_of_uint d)
    = match hexPrefix None (HexadecimalString.NilEmpty.string_of_uint d) with
      | Some v => Int (1 * v)
      | None => NaN
      end).
  { destruct d as [ | d' | d' | d' | d' | d' | d' | d' | d' | d' | d' | d' | d'
                    | d' | d' | d' | d' ];
      [ congruence | | reflexivity .. ].
    destruct d'; reflexivity. }
  rewrite Hparse, (hexPrefix_None_digits d Hd). f_equal.
  destruct (Z.of_N (Pos.of_hex_uint d)); reflexivity.
Qed.

Lemma toString16_digits (z : Z) :
  exists d,
    d <> Hexadecimal.Nil
    /\ toString16 z = HexadecimalString.NilEmpty.string_of_uint d
    /\ Pos.of_hex_uint d = Z.to_N z.
Proof.
  exists (N.to_hex_uint (Z.to_N z)).
  assert (Hnil : N.to_hex_uint (Z.to_N z) <> Hexadecimal.Nil).
  { destruct (Z.to_N z) as [ | p]; [ discriminate | ].
    apply HexadecimalPos.Unsigned.to_uint_nonnil. }
  split; [ exact Hnil | split ].
  - unfold toString16, HexadecimalString.NilZero.string_of_uint.
    destruct (N.to_hex_uint (Z.to_N z)); [ congruence | reflexivity .. ].
  - apply HexadecimalN.Unsigned.of_to.
Qed.

(** The hexadecimal text of a number reads back as the number. *)
Lemma parseInt16_toString16 (z : Z) :
  (0 <= z)%Z -> parseInt16 (toString16 z) = Int z.
Proof.
  intros Hz. destruct (toString16_digits z) as (d & Hd & -> & Hvalue).
  rewrite (parseInt16_digits d Hd), Hvalue. f_equal. lia.
Qed.

Lemma toLowerCase_digits (d : Hexadecimal.uint) :
  toLowerCase (HexadecimalString.NilEmpty.string_of_uint d)
  = HexadecimalString.NilEmpty.string_of_uint d.
Proof.
  induction d;
    cbn [HexadecimalString.NilEmpty.string_of_uint toLowerCase];
    [ reflexivity | rewrite IHd; reflexivity .. ].
Qed.

Lemma hexRegExpTest_digits (d : Hexadecimal.uint) :
  hexRegExpTest (HexadecimalString.NilEmpty.string_of_uint d) = false.
Proof.
  destruct d as [ | d' | d' | d' | d' | d' | d' | d' | d' | d' | d' | d' | d'
                  | d' | d' | d' | d' ];
    [ reflexivity | destruct d'; reflexivity .. ].
Qed.

(** X15. For an integer, [codepoint] returns a token exactly when the
    integer lies between 0 and 0x10FFFF, and it refuses both infinities
    and NaN.  The token of an accepted integer holds its lower-case
    hexadecimal text, and giving that text to [codepoint] as a string
    builds the same token. *)
Theorem codepoint_integer (z : Z) :
  ((exists token, codepoint (inr (Int z)) = OK token)
   <-> (0 <= z <= 1114111)%Z)
  /\ codepoint (inr Infinity) = Throw CodepointOutOfRange
  /\ codepoint (inr NegInfinity) = Throw CodepointOutOfRange
  /\ codepoint (inr NaN) = Throw CodepointNaN
  /\ ((0 <= z <= 1114111)%Z ->
      codepoint (inr (Int z))
      = OK (SpecialToken "codepoint" ("\u{" +:+ toString16 z +:+ "}"))
      /\ codepoint (inl (toString16 z)) = codepoint (inr (Int z))).
Proof.
  split; [ | split; [ reflexivity | split; [ reflexivity | split;
    [ reflexivity | ] ] ] ].
  - unfold codepoint.
    destruct (assertValidNumericCodepoint (Int z)) as [[] | e] eqn:Hvalid;
      cbn [bind].
    + apply assertValidNumericCodepoint_OK in Hvalid as (z' & [= <-] & Hz).
      split; [ intros _; exact Hz | eauto ].
    + split; [ intros [token Htoken]; discriminate | ].
      intros Hz.
      assert (Hok : assertValidNumericCodepoint (Int z) = OK tt).
      { apply assertValidNumericCodepoint_OK. eauto. }
      congruence.
  - intros Hz.
    assert (Hvalid : assertValidNumericCodepoint (Int z) = OK tt).
    { apply assertValidNumericCodepoint_OK. eauto. }
    assert (Hnumber :
      codepoint (inr (Int z))
      = OK (SpecialToken "codepoint" ("\u{" +:+ toString16 z +:+ "}"))).
    { unfold codepoint. rewrite Hvalid. cbn [bind numberToString16].
      destruct (Z.ltb_spec z 0); [ lia | reflexivity ]. }
    split; [ exact Hnumber | ]. rewrite Hnumber.
    unfold codepoint.
    destruct (toString16_digits z) as (d & Hd & Htext & Hvalue).
    rewrite Htext, toLowerCase_digits, hexRegExpTest_digits, <- Htext.
    rewrite parseInt16_toString16 by lia. rewrite Hvalid. reflexivity.
Qed.

Lemma codepoint_integer_witness :
  (0 <= 5345 <= 1114111)%Z
  /\ codepoint (inr (Int 5345)) = OK (SpecialToken "codepoint" "\u{14e1}")
  /\ codepoint (inl "14e1") = codepoint (inr (Int 5345)).
Proof.
  assert (Hz : (0 <= 5345 <= 1114111)%Z) by lia.
  split; [ exact Hz | ].
  destruct (codepoint_integer 5345) as (_ & _ & _ & _ & Hround).
  exact (Hround Hz).
Defined.

Lemma sameAs_accepts_witness :
  sameAs (inr (Int 42)) = OK (SameAs (inr (Int 42)))
  /\ SameAs (inr (Int 42)) = SameAs (inr (Int 42)).
Proof.
  split; [ reflexivity | ].
  exact (proj2 (sameAs_accepts (inr (Int 42))) (SameAs (inr (Int 42))) eq_refl).
Defined.

(* ------------------------------------------------------------------ *)
(** ** Flags *)

(** X16. Whatever the build options are, the flags hold [s] and [u] and
    hold neither [m] nor [v]; each of [d], [g], [i] and [y] is there
    exactly when its option is set. *)
Theorem getRegExpFlagsForOptions_letters (options : BuildOptions) :
  let flags := getRegExpFlagsForOptions options in
  hasFlag "s" flags = true
  /\ hasFlag "u" flags = true
  /\ hasFlag "m" flags = false
  /\ hasFlag "v" flags = false
  /\ hasFlag "d" flags = hasIndices options
  /\ hasFlag "g" flags = global options
  /\ hasFlag "i" flags = ignoreCase options
  /\ hasFlag "y" flags = sticky options.
Proof.
  destruct options as [[] [] [] []]; repeat split; reflexivity.
Qed.

(* ------------------------------------------------------------------ *)
(** ** Character ranges *)

(** X17. For two single characters [charRange] throws exactly when the
    first one has the higher code.  Otherwise it builds a class token,
    with a hyphen at either end escaped, that encodes on its own inside
    brackets and, as the member of a negated class or of a disjunction,
    without brackets of its own. *)
Theorem charRange_single_characters (a b : ascii) (w : bool) :
  ((code b < code a)%nat -> charRange (String a "") (String b "") = None)
  /\ ((code a <= code b)%nat ->
      let raw := escapeDash (String a "") +:+ "-" +:+ escapeDash (String b "") in
      let token := SpecialToken "charRange" raw in
      charRange (String a "") (String b "") = Some token
      /\ encodePattern token true = OK ("[" +:+ raw +:+ "]")
      /\ encodePattern (NotAnyOf [token]) w = OK ("[^" +:+ raw +:+ "]")
      /\ encodePattern (anyOf [token]) w = OK ("(?:[" +:+ raw +:+ "])")).
Proof.
  split.
  - intros Hgt. unfold charRange. cbn [codePointAt0 codePointGt].
    destruct (Nat.ltb_spec (code b) (code a)); [ reflexivity | lia ].
  - intros Hle raw token.
    assert (Hrange : charRange (String a "") (String b "") = Some token).
    { unfold charRange. cbn [codePointAt0 codePointGt].
      destruct (Nat.ltb_spec (code b) (code a)); [ lia | reflexivity ]. }
    split; [ exact Hrange | ].
    split; [ reflexivity | ].
    assert (Hraw : nonEmpty raw = true /\ escapeDash raw = raw).
    { unfold raw, escapeDash.
      destruct (String.eqb (String a "") "-"), (String.eqb (String b "") "-");
        (split; [ reflexivity | ]); cbv [String.append]; cbn [String.eqb];
        destruct (Ascii.eqb a "-"); try reflexivity. }
    destruct Hraw as [Hne Hdash].
    split.
    + cbn [encodePattern]. unfold encodePattern_notAnyOf.
      cbn [length Nat.eqb forOf notAnyOfMember isStringOrClassToken isString
           isClassToken orb negb bind encodePattern token encodeSpecialToken
           andb app].
      now rewrite join_empty_cons, append_empty_r.
    + unfold anyOf. rewrite encodePattern_AnyOf. unfold encodePattern_anyOf.
      cbn [length Nat.eqb forOf].
      change (groupMember isSingleCharPattern [[]] token) with (OK [[token]]).
      cbn [bind forOf encodeGroup isSingleCharPattern isClassToken token mapM
           encodePattern encodeSpecialToken andb List.filter List.map].
      rewrite Hne. cbn [List.map]. rewrite Hdash.
      cbn [length Nat.ltb Nat.leb bind app Nat.eqb join String.concat].
      rewrite !append_assoc. reflexivity.
Qed.

Lemma charRange_single_characters_witness :
  ((code "a" < code "z")%nat /\ charRange "z" "a" = None)
  /\ ((code "-" <= code "9")%nat
      /\ charRange "-" "9" = Some (SpecialToken "charRange" "\--9")
      /\ encodePattern (anyOf [SpecialToken "charRange" "\--9"]) true
         = OK "(?:[\--9])").
Proof.
  assert (Hlt : (code "a" < code "z")%nat) by (cbv; lia).
  assert (Hle : (code "-" <= code "9")%nat) by (cbv; lia).
  split; (split; [ assumption | ]).
  - exact (proj1 (charRange_single_characters "z" "a" true) Hlt).
  - destruct (proj2 (charRange_single_characters "-" "9" true) Hle)
      as (Hrange & _ & _ & Hany).
    split; [ exact Hrange | exact Hany ].
Defined.

(* ------------------------------------------------------------------ *)
(** ** Conditions in the encoded string *)

(** X18. [matches] without any condition encodes like its primary
    pattern; with the single condition [except] it encodes to the
    negative lookahead of the excluded pattern followed by the primary
    pattern. *)
Theorem matches_encoding (pattern : Pattern) (w : bool) :
  encodePattern (matches pattern (inr [])) w = encodePattern pattern true
  /\ forall excluded primaryString excludedString,
       encodePattern pattern true = OK primaryString ->
       encodePattern excluded true = OK excludedString ->
       nonEmpty excludedString = true ->
       encodePattern
         (matches pattern
            (inl {| except := Some excluded;
                    ifFollowedBy := None; ifNotFollowedBy := None;
                    ifPrecededBy := None; ifNotPrecededBy := None;
                    ifExtendsTo := None; ifExtendsBackTo := None;
                    ifNotExtendsBackTo := None |})) w
       = OK ("(?!" +:+ excludedString +:+ ")" +:+ primaryString).
Proof.
  split.
  - cbn [matches fold_left fst snd app encodePattern mapM].
    destruct (encodePattern pattern true) as [s | e]; [ | reflexivity ].
    cbn [bind]. rewrite join_empty_cons. cbn [join String.concat].
    now rewrite append_empty_r.
  - intros excluded primaryString excludedString Hprimary Hexcluded Hne.
    assert (Htruthy : truthyPattern (Some excluded) = true).
    { destruct excluded as [s | | | | | | | | | | | | | | ]; try reflexivity.
      cbn [encodePattern] in Hexcluded. injection Hexcluded as <-.
      destruct s; [ discriminate Hne | reflexivity ]. }
    unfold matches, addConditions, pushIf.
    cbn [fold_left fst snd except ifFollowedBy ifNotFollowedBy ifPrecededBy
         ifNotPrecededBy ifExtendsTo ifExtendsBackTo ifNotExtendsBackTo].
    rewrite Htruthy.
    cbn [app notFollowedBy encodePattern mapM].
    unfold encodePattern_notFollowedBy.
    rewrite Hexcluded, Hprimary. cbn [bind].
    rewrite nonEmpty_eqb, Hne. cbn [negb bind].
    rewrite !join_empty_cons. cbn [join String.concat].
    now rewrite append_empty_r, !append_assoc.
Qed.

Lemma matches_encoding_witness :
  encodePattern (oneOrMore (SpecialToken "digit" "\d")) true = OK "\d+"
  /\ encodePattern (Str "23") true = OK "23"
  /\ nonEmpty "23" = true
  /\ encodePattern
       (matches (oneOrMore (SpecialToken "digit" "\d"))
          (inl {| except := Some (Str "23");
                  ifFollowedBy := None; ifNotFollowedBy := None;
                  ifPrecededBy := None; ifNotPrecededBy := None;
                  ifExtendsTo := None; ifExtendsBackTo := None;
                  ifNotExtendsBackTo := None |})) true
     = OK "(?!23)\d+".
Proof.
  split; [ reflexivity | split; [ reflexivity | split; [ reflexivity | ] ] ].
  exact (proj2 (matches_encoding (oneOrMore (SpecialToken "digit" "\d")) true)
           (Str "23") "\d+" "23" eq_refl eq_refl eq_refl).
Defined.

(* ------------------------------------------------------------------ *)
(** ** Property tokens *)

(** X19. A Unicode property token is encoded as it is, whether or not
    range tokens are wrapped; a quantifier puts its suffix directly
    behind it, and in a disjunction the tokens share one character
    class. *)
Theorem unicodeProperty_encoding (property : string) (value : option string)
  (w : bool) :
  let text :=
    match value with
    | Some v => property +:+ "=" +:+ v
    | None => property
    end in
  encodePattern (unicodeProperty property value) w = OK ("\p{" +:+ text +:+ "}")
  /\ encodePattern (notUnicodeProperty property value) w
     = OK ("\P{" +:+ text +:+ "}")
  /\ encodePattern (oneOrMore (unicodeProperty property value)) w
     = OK ("\p{" +:+ text +:+ "}+")
  /\ encodePattern
       (anyOf [unicodeProperty property value;
               notUnicodeProperty property value]) w
     = OK ("(?:[\p{" +:+ text +:+ "}\P{" +:+ text +:+ "}])").
Proof.
  intros text.
  assert (Htoken : forall mode,
            encodePattern (unicodeProperty property value) mode
            = OK ("\p{" +:+ text +:+ "}")).
  { intros []; reflexivity. }
  assert (Hnot : forall mode,
            encodePattern (notUnicodeProperty property value) mode
            = OK ("\P{" +:+ text +:+ "}")).
  { intros []; reflexivity. }
  split; [ apply Htoken | split; [ apply Hnot | split ] ].
  - unfold oneOrMore. cbn [encodePattern]. unfold encodePattern_oneOrMore.
    rewrite Htoken. cbn [bind].
    change (String.eqb ("\p{" +:+ text +:+ "}") "") with false.
    change (isStringOrClassToken (unicodeProperty property value)) with true.
    cbv iota. cbn [greedySuffix]. f_equal.
    rewrite append_empty_r.
    change ("\p{" +:+ text +:+ "}") with ("\p{" +:+ (text +:+ "}")).
    now rewrite !append_assoc.
  - unfold anyOf. rewrite encodePattern_AnyOf. unfold encodePattern_anyOf.
    cbn [length Nat.eqb].
    change (forOf (groupMember isSingleCharPattern)
              [unicodeProperty property value; notUnicodeProperty property value]
              [[]])
      with (OK [[unicodeProperty property value;
                 notUnicodeProperty property value]]).
    cbn [bind forOf encodeGroup].
    change (isSingleCharPattern (unicodeProperty property value)) with (OK true).
    cbn [bind mapM]. rewrite Htoken, Hnot.
    cbn [bind List.filter].
    change (nonEmpty ("\p{" +:+ text +:+ "}")) with true.
    change (nonEmpty ("\P{" +:+ text +:+ "}")) with true.
    cbv iota. cbn [List.map].
    change (escapeDash ("\p{" +:+ text +:+ "}")) with ("\p{" +:+ text +:+ "}").
    change (escapeDash ("\P{" +:+ text +:+ "}")) with ("\P{" +:+ text +:+ "}").
    cbn [length Nat.ltb Nat.leb bind app Nat.eqb].
    rewrite !join_empty_cons. cbn [join String.concat].
    f_equal. rewrite append_empty_r, !append_assoc. reflexivity.
Qed.
